(** * gh-host: the static-site generation pipeline

    A shallow embedding of the generator of [main.go] (the second program
    of the file: [readPosts], [readPost], [generatePosts], [generateIndex],
    [generateTags]) and of the pieces of the command-line program that
    write and rewrite post files ([create], [update]) and that answer
    dispatch requests ([dispatchWorkflowHandler]).

    Go strings are byte strings and are modelled by [string]; a slice is a
    [list]; [map[string][]Post] is a [gmap string (list Post)]; a Go
    function returning [(T, error)] returns a [result T]. The operating
    system, the YAML decoder, the Markdown renderer and the template
    engine are outside the repository: they are the fields of a [World]
    that every operation takes as an argument. *)

From Stdlib Require Import Ascii.
From Stdlib Require String.
From Stdlib Require Import Sorting.Sorted.
From stdpp Require Import base tactics option list strings.
From stdpp Require Import gmap fin_maps sorting.

Local Open Scope stdpp_scope.

(** ** Package [strings] *)

Module strings.

(** [s[:n]] and [s[n:]] for [n <= len(s)]. *)
Fixpoint slice_to (n : nat) (s : string) : string :=
  match n, s with
  | S n', String c s' => String c (slice_to n' s')
  | _, _ => ""
  end.

Fixpoint slice_from (n : nat) (s : string) : string :=
  match n, s with
  | S n', String _ s' => slice_from n' s'
  | _, _ => s
  end.

(** [return len(s) >= len(prefix) && s[:len(prefix)] == prefix] *)
Definition HasPrefix (s prefix : string) : bool :=
  (String.length prefix <=? String.length s)%nat
  && bool_decide (slice_to (String.length prefix) s = prefix).

(** [return len(s) >= len(suffix) && s[len(s)-len(suffix):] == suffix] *)
Definition HasSuffix (s suffix : string) : bool :=
  (String.length suffix <=? String.length s)%nat
  && bool_decide
       (slice_from (String.length s - String.length suffix) s = suffix).

Definition TrimPrefix (s prefix : string) : string :=
  if HasPrefix s prefix then slice_from (String.length prefix) s else s.

Definition TrimSuffix (s suffix : string) : string :=
  if HasSuffix s suffix
  then slice_to (String.length s - String.length suffix) s
  else s.

Fixpoint Join (elems : list string) (sep : string) : string :=
  match elems with
  | [] => ""
  | [x] => x
  | x :: rest => x +:+ sep +:+ Join rest sep
  end.

End strings.

(** ** Errors and results *)

(** Go's [error] values are opaque to this program: it only tests them
    against [nil] and hands them to its caller. *)
Inductive error : Type :=
  | errorString (msg : string).

Inductive result (A : Type) : Type :=
  | Ok (a : A)
  | Fail (e : error).
Arguments Ok {A} a.
Arguments Fail {A} e.

Definition bind_result {A B} (r : result A) (k : A → result B) : result B :=
  match r with
  | Ok a => k a
  | Fail e => Fail e
  end.

Notation "'try' x ← r ; k" := (bind_result r (λ x, k))
  (at level 10, x name, r at level 100, k at level 200,
   format "'try'  x  ←  r ;  '/' k").

Definition is_Ok {A} (r : result A) : bool :=
  match r with Ok _ => true | Fail _ => false end.

(** ** The data model *)

Record Post : Type := mkPost {
  Title : string;
  Date : string;
  Tags : list string;
  Content : string;
  Slug : string;
  BaseURL : string;
}.

Global Instance Post_eq_dec : EqDecision Post.
Proof. solve_decision. Defined.

(** [var post Post]: the zero value. *)
Definition zeroPost : Post := mkPost "" "" [] "" "" "".

(** A directory entry, as far as [readPosts] looks at it. *)
Record DirEntry : Type := mkDirEntry {
  Name : string;
  IsDir : bool;
}.

(** What a template is executed on: [generatePosts] passes the [Post],
    [generateIndex] and [generateTags] pass anonymous structs. *)
Inductive Data : Type :=
  | PostData (post : Post)
  | IndexData (Posts : list Post) (BaseURL : string)
  | TagData (Tag : string) (Posts : list Post) (BaseURL : string).

(** ** The world outside the repository *)

Record World : Type := mkWorld {
  (** [os.ReadDir]: the entries of a directory, or an error. *)
  os_ReadDir : string → result (list DirEntry);
  (** [os.Open] followed by [bufio.Scanner]: the lines of a file, without
      their line ends, or the error of [os.Open]. *)
  os_Open : string → result (list string);
  (** [yaml.Unmarshal(text, &post)]: the post with the decoded fields
      overwritten, or an error. *)
  yaml_Unmarshal : string → Post → result Post;
  (** [markdown.ToHTML(text, nil, nil)] *)
  markdown_ToHTML : string → string;
  (** [template.ParseFiles(names...)] *)
  Template : Type;
  template_ParseFiles : list string → result Template;
  (** [tmpl.Execute(file, data)]: the bytes written to the file and the
      error, if any, that stopped the execution. *)
  template_Execute : Template → Data → string * option error;
  (** [os.Create(name)]: the error, if the file cannot be created. *)
  os_Create : string → option error;
  (** [os.MkdirAll(path, 0755)]: the error, if any. *)
  os_MkdirAll : string → option error;
  (** [os.Getenv(key)] *)
  os_Getenv : string → string;
}.

(** ** The Metadata/Body Splitter: the scanner loop of [readPost] *)

Record splitter : Type := mkSplitter {
  frontmatter : list string;
  content : list string;
  inFrontmatter : bool;
  count : nat;
}.

Definition splitter_init : splitter := mkSplitter [] [] false 0.

Definition isDelimiter (line : string) : bool := strings.HasPrefix line "---".

(** The two branches at the end of the loop body. *)
Definition collect (st : splitter) (line : string) : splitter :=
  if inFrontmatter st
  then mkSplitter (frontmatter st ++ [line]) (content st)
                  (inFrontmatter st) (count st)
  else mkSplitter (frontmatter st) (content st ++ [line])
                  (inFrontmatter st) (count st).

(** One iteration of [for scanner.Scan()]. *)
Definition scanLine (st : splitter) (line : string) : splitter :=
  if isDelimiter line then
    let st := mkSplitter (frontmatter st) (content st)
                         (inFrontmatter st) (S (count st)) in
    if (count st =? 1)%nat then
      mkSplitter (frontmatter st) (content st) true (count st)
    else if (count st =? 2)%nat then
      mkSplitter (frontmatter st) (content st) false (count st)
    else collect st line
  else collect st line.

Definition scanLines (lines : list string) : splitter :=
  foldl scanLine splitter_init lines.

(** The number of lines that the splitter takes for delimiters. *)
Definition delimiters (lines : list string) : nat :=
  length (filter (λ line, isDelimiter line = true) lines).

(** The state of the splitter with the lines [lead] put in front of the
    body. *)
Definition withBody (lead : list string) (st : splitter) : splitter :=
  mkSplitter (frontmatter st) (lead ++ content st)
             (inFrontmatter st) (count st).

(** ** The Post Assembler and [readPost] *)

(** [post.Slug = TrimPrefix(TrimSuffix(fileName, ".md"), "content/posts/")] *)
Definition slugOf (fileName : string) : string :=
  strings.TrimPrefix (strings.TrimSuffix fileName ".md") "content/posts/".

(** [fmt.Sprintf("content/posts/%s.md", slug)], the file name that the
    [create], [delete] and [update] commands give a post. *)
Definition postFileName (slug : string) : string :=
  "content/posts/" +:+ slug +:+ ".md".

Definition newline : string := String (ascii_of_nat 10) "".

Definition readPost (W : World) (fileName baseURL : string) : result Post :=
  try lines ← os_Open W fileName;
  let st := scanLines lines in
  let metadata := strings.Join (frontmatter st) newline in
  try post ← yaml_Unmarshal W metadata zeroPost;
  Ok (mkPost (Title post) (Date post) (Tags post)
             (markdown_ToHTML W (strings.Join (content st) newline))
             (slugOf fileName)
             baseURL).

(** ** The Collection Reader: [readPosts] *)

Definition selected (file : DirEntry) : bool :=
  negb (IsDir file) && strings.HasSuffix (Name file) ".md".

(** [fmt.Sprintf("%s/%s", dir, file.Name())] *)
Definition pathOf (dir name : string) : string := dir +:+ "/" +:+ name.

(** [for _, file := range files], with the slice [posts] built so far. *)
Fixpoint readPosts_range (W : World) (dir baseURL : string)
    (files : list DirEntry) (posts : list Post) : result (list Post) :=
  match files with
  | [] => Ok posts
  | file :: files =>
      if selected file then
        try post ← readPost W (pathOf dir (Name file)) baseURL;
        readPosts_range W dir baseURL files (posts ++ [post])
      else readPosts_range W dir baseURL files posts
  end.

Definition readPosts (W : World) (dir baseURL : string) : result (list Post) :=
  try files ← os_ReadDir W dir;
  readPosts_range W dir baseURL files [].

(** ** The Page Composer *)

(** The output location: the contents of the files by path. *)
Abbreviation FS := (gmap string string).

(** A computation that writes files and may stop with an error. *)
Definition IO (A : Type) : Type := FS → FS * result A.

Definition io_ret {A} (a : A) : IO A := λ fs, (fs, Ok a).

Definition io_bind {A B} (m : IO A) (k : A → IO B) : IO B :=
  λ fs, match m fs with
        | (fs', Ok a) => k a fs'
        | (fs', Fail e) => (fs', Fail e)
        end.

Notation "'run' x ← m ; k" := (io_bind m (λ x, k))
  (at level 10, x name, m at level 100, k at level 200,
   format "'run'  x  ←  m ;  '/' k").

Fixpoint io_range {A} (body : A → IO unit) (l : list A) : IO unit :=
  match l with
  | [] => io_ret tt
  | x :: l => run _ ← body x; io_range body l
  end.

Section composer.
Variable W : World.

Definition ParseFiles (names : list string) : IO (Template W) :=
  λ fs, (fs, template_ParseFiles W names).

(** [os.Create] truncates the file it opens; the handle is its path. *)
Definition Create (name : string) : IO string :=
  λ fs, match os_Create W name with
        | None => (<[name := ""]> fs, Ok name)
        | Some e => (fs, Fail e)
        end.

(** [tmpl.Execute(file, data)] on a file that [Create] just opened. *)
Definition Execute (tmpl : Template W) (file : string) (data : Data)
    : IO unit :=
  λ fs, let '(out, err) := template_Execute W tmpl data in
        (<[file := out]> fs,
         match err with None => Ok tt | Some e => Fail e end).

Definition postPath (post : Post) : string :=
  "output/" +:+ Slug post +:+ ".html".

Definition tagPath (tag : string) : string :=
  "output/tag-" +:+ tag +:+ ".html".

Definition generatePosts (posts : list Post) (baseURL : string) : IO unit :=
  run tmpl ← ParseFiles ["templates/layout.html"; "templates/post.html"];
  io_range (λ post,
    run file ← Create (postPath post);
    Execute tmpl file (PostData post)) posts.

Definition generateIndex (posts : list Post) (baseURL : string) : IO unit :=
  run tmpl ← ParseFiles ["templates/layout.html"; "templates/index.html"];
  run file ← Create "output/index.html";
  Execute tmpl file (IndexData posts baseURL).

(** [tags[tag] = append(tags[tag], post)]; a missing key reads as nil. *)
Definition appendTag (post : Post) (tags : gmap string (list Post))
    (tag : string) : gmap string (list Post) :=
  <[tag := default [] (tags !! tag) ++ [post]]> tags.

(** The TagIndex: the first loop of [generateTags]. *)
Definition buildTagIndex (posts : list Post) : gmap string (list Post) :=
  foldl (λ tags post, foldl (appendTag post) tags (Tags post)) ∅ posts.

(** [for tag, posts := range tags] visits every entry of the map once,
    in an order that Go leaves unspecified: a run has a [range] that
    lists the entries of a map in the order it visits them. *)
Definition RangeOrder (range : gmap string (list Post) →
                               list (string * list Post)) : Prop :=
  ∀ m, range m ≡ₚ map_to_list m.

Definition generateTags
    (range : gmap string (list Post) → list (string * list Post))
    (posts : list Post) (baseURL : string) : IO unit :=
  run tmpl ← ParseFiles ["templates/layout.html"; "templates/tag.html"];
  let tags := buildTagIndex posts in
  io_range (λ '(tag, posts),
    run file ← Create (tagPath tag);
    Execute tmpl file (TagData tag posts baseURL)) (range tags).

(** The three steps of [main] after the posts are read. *)
Definition compose
    (range : gmap string (list Post) → list (string * list Post))
    (posts : list Post) (baseURL : string) : IO unit :=
  run _ ← generatePosts posts baseURL;
  run _ ← generateIndex posts baseURL;
  generateTags range posts baseURL.

(** [os.MkdirAll]; the output location holds documents only. *)
Definition MkdirAll (path : string) : IO unit :=
  λ fs, match os_MkdirAll W path with
        | None => (fs, Ok tt)
        | Some e => (fs, Fail e)
        end.

(** [main]; [log.Fatal(err)] ends the run with the error. *)
Definition main
    (range : gmap string (list Post) → list (string * list Post))
    : IO unit :=
  let baseURL := os_Getenv W "BASE_URL" in
  run _ ← MkdirAll "output";
  run _ ← MkdirAll "content/posts";
  run posts ← (λ fs, (fs, readPosts W "content/posts" baseURL));
  run _ ← generatePosts posts baseURL;
  run _ ← generateIndex posts baseURL;
  generateTags range posts baseURL.

End composer.

(** ** The [create] command: the text written to a new post file *)

(** The format string of [file.WriteString(fmt.Sprintf(...))]. *)
Definition createText (title date tags content : string) : string :=
  "---" +:+ newline +:+
  "title: " +:+ title +:+ newline +:+
  "date: " +:+ date +:+ newline +:+
  "tags: [" +:+ tags +:+ "]" +:+ newline +:+
  "---" +:+ newline +:+
  newline +:+
  content.

(** ** The TagIndex, as a specification *)

(** [tags[tag]]: the group of a tag; reading a Go map at a missing key
    gives the nil slice. *)
Definition group (tags : gmap string (list Post)) (tag : string)
    : list Post :=
  default [] (tags !! tag).

(** One copy of the post for every time [tag] is written in its tags. *)
Definition occurrences (tag : string) (post : Post) : list Post :=
  replicate (length (filter (λ t, t = tag) (Tags post))) post.

(** The groups, among the entries of a TagIndex, that hold the post. *)
Definition groupsOf (post : Post) (tags : gmap string (list Post))
    : gmap string (list Post) :=
  filter (λ entry, post ∈ entry.2) tags.

(** ** The Collection Reader, as a specification *)

(** Apply [f] to the elements in turn and stop at the first error. *)
Fixpoint traverse {A B} (f : A → result B) (l : list A) : result (list B) :=
  match l with
  | [] => Ok []
  | x :: l =>
      try y ← f x;
      try ys ← traverse f l;
      Ok (y :: ys)
  end.

(** The order of [os.ReadDir]: by file name, byte by byte. *)
Definition byName (file1 file2 : DirEntry) : Prop :=
  String.le (Name file1) (Name file2).

(** The name of the file in the content directory that a post with this
    slug is read from. *)
Definition sourceName (post : Post) : string := Slug post +:+ ".md".

(** ** The Page Composer, as a specification

    Each of the three generators parses its templates and then renders a
    list of items, an item being the path of a document and the data its
    template is executed on. *)

Definition postItem (post : Post) : string * Data :=
  (postPath post, PostData post).

Definition indexItem (posts : list Post) (baseURL : string) : string * Data :=
  ("output/index.html", IndexData posts baseURL).

Definition tagItem (baseURL : string) (entry : string * list Post)
    : string * Data :=
  (tagPath entry.1, TagData entry.1 entry.2 baseURL).

(** [os.Create] and then [tmpl.Execute] on one item. *)
Definition render (W : World) (tmpl : Template W) (item : string * Data)
    : IO unit :=
  run file ← Create W item.1;
  Execute W tmpl file item.2.

Definition runPhase (W : World) (names : list string)
    (items : list (string * Data)) : IO unit :=
  run tmpl ← ParseFiles W names;
  io_range (render W tmpl) items.

(** The item is rendered without an error. *)
Definition renders (W : World) (tmpl : Template W) (item : string * Data)
    : Prop :=
  os_Create W item.1 = None ∧ (template_Execute W tmpl item.2).2 = None.

(** The document of an item: its path and the text executed into it. *)
Definition docOf (W : World) (tmpl : Template W) (item : string * Data)
    : string * string :=
  (item.1, (template_Execute W tmpl item.2).1).

Definition phaseOk (W : World) (names : list string)
    (items : list (string * Data)) : Prop :=
  ∃ tmpl, template_ParseFiles W names = Ok tmpl
          ∧ Forall (renders W tmpl) items.

Definition phaseDocs (W : World) (names : list string)
    (items : list (string * Data)) : list (string * string) :=
  match template_ParseFiles W names with
  | Ok tmpl => docOf W tmpl <$> items
  | Fail _ => []
  end.

(** Write the documents one after the other. *)
Definition writeAll (docs : list (string * string)) (fs : FS) : FS :=
  foldl (λ fs doc, <[doc.1 := doc.2]> fs) fs docs.

Definition postTemplates : list string :=
  ["templates/layout.html"; "templates/post.html"].
Definition indexTemplates : list string :=
  ["templates/layout.html"; "templates/index.html"].
Definition tagTemplates : list string :=
  ["templates/layout.html"; "templates/tag.html"].

(** The documents of a run that visits the TagIndex in the order
    [entries]. *)
Definition documents (W : World) (entries : list (string * list Post))
    (posts : list Post) (baseURL : string) : list (string * string) :=
  phaseDocs W postTemplates (postItem <$> posts)
  ++ phaseDocs W indexTemplates [indexItem posts baseURL]
  ++ phaseDocs W tagTemplates (tagItem baseURL <$> entries).

(** The run ended without an error. *)
Definition succeeded (outcome : FS * result unit) : bool := is_Ok outcome.2.

(** ** The [update] command: the loop that rewrites a post file *)

(** [line] as the loop body leaves it when it is inside the metadata
    block. *)
Definition updateLine (title tags line : string) : string :=
  if strings.HasPrefix line "title:" && negb (bool_decide (title = ""))
  then "title: " +:+ title
  else if strings.HasPrefix line "tags:" && negb (bool_decide (tags = ""))
  then "tags: [" +:+ tags +:+ "]"
  else line.

(** [for _, line := range lines] with [newLines] and [inFrontmatter] as
    they stand; the result is their value when the loop ends, by running
    out of lines or by [break]. *)
Fixpoint updateRange (title content tags : string) (lines : list string)
    (newLines : list string) (inFrontmatter : bool) : list string * bool :=
  match lines with
  | [] => (newLines, inFrontmatter)
  | line :: lines =>
      if strings.HasPrefix line "---" then
        updateRange title content tags lines
                    (newLines ++ [line]) (negb inFrontmatter)
      else if inFrontmatter then
        updateRange title content tags lines
                    (newLines ++ [updateLine title tags line]) inFrontmatter
      else if negb (bool_decide (content = "")) then
        (newLines ++ [content], inFrontmatter)
      else
        updateRange title content tags lines
                    (newLines ++ [line]) inFrontmatter
  end.

(** ** Lines of a text *)

(** [strings.Split(text, "\n")], the way the [update] command cuts a
    post file into lines. ([bufio.Scanner], which [readPost] uses, gives
    the same lines but for a final empty one and for carriage returns.) *)
Fixpoint SplitLines (text : string) : list string :=
  match text with
  | "" => [""]
  | String c text =>
      if Ascii.eqb c (ascii_of_nat 10) then "" :: SplitLines text
      else match SplitLines text with
           | line :: lines => String c line :: lines
           | [] => [String c ""]
           end
  end.

(** The text has no line end in it. *)
Definition singleLine (text : string) : Prop := SplitLines text = [text].

(** ** A small world, for the examples

    A content directory with two posts, a subdirectory and a file that is
    not a post; a decoder that knows the empty document and the metadata
    block of [hello-world.md]; templates that list what they are given. *)

Definition helloLines : list string :=
  ["---"; "title: Hello World"; "date: 2024-01-01"; "tags: [intro, test]";
   "---"; ""; "# Hi"].

Definition plainLines : list string := ["just text"; "more text"].

Definition sampleReadDir (dir : string) : result (list DirEntry) :=
  if bool_decide (dir = "content/posts") then
    Ok [mkDirEntry "a-post.md" false; mkDirEntry "drafts" true;
        mkDirEntry "hello-world.md" false; mkDirEntry "notes.txt" false]
  else Fail (errorString "no such directory").

Definition sampleOpen (path : string) : result (list string) :=
  if bool_decide (path = "content/posts/hello-world.md") then Ok helloLines
  else if bool_decide (path = "content/posts/a-post.md") then Ok plainLines
  else Fail (errorString "no such file").

Definition sampleUnmarshal (text : string) (post : Post) : result Post :=
  if bool_decide (text = "") then Ok post
  else if bool_decide
            (text = strings.Join ["title: Hello World"; "date: 2024-01-01";
                                  "tags: [intro, test]"] newline)
  then Ok (mkPost "Hello World" "2024-01-01" ["intro"; "test"]
                  (Content post) (Slug post) (BaseURL post))
  else Fail (errorString "yaml: unknown document").

Definition sampleExecute (tmpl : list string) (data : Data)
    : string * option error :=
  match data with
  | PostData post => (Title post +:+ ":" +:+ Content post, None)
  | IndexData posts baseURL =>
      (baseURL +:+ ":" +:+ strings.Join (Slug <$> posts) ",", None)
  | TagData tag posts baseURL =>
      (tag +:+ ":" +:+ strings.Join (Slug <$> posts) ",", None)
  end.

Definition sampleWorld : World :=
  mkWorld sampleReadDir sampleOpen sampleUnmarshal
          (λ text, "<p>" +:+ text +:+ "</p>")
          (list string) (λ names, Ok names) sampleExecute
          (λ _, None) (λ _, None) (λ _, "https://example.org").

(** Posts for the examples. *)
Definition helloPost : Post :=
  mkPost "Hello World" "2024-01-01" ["intro"; "test"] "<h1>Hi</h1>"
         "hello-world" "".

Definition secondPost : Post :=
  mkPost "Second" "2024-01-02" ["test"] "" "second" "".

Definition repeatedTagPost : Post :=
  mkPost "Go twice" "2024-02-02" ["go"; "go"] "" "go-twice" "".

(** ** Worlds for further examples *)

(** The world of a content directory with the given entries and files, in
    which the files [creatable] accepts can be created; the decoder and the
    templates are those of [sampleWorld]. *)
Definition siteWorld (entries : list DirEntry)
    (files : list (string * list string)) (creatable : string → bool)
    : World :=
  mkWorld
    (λ dir, if bool_decide (dir = "content/posts") then Ok entries
            else Fail (errorString "no such directory"))
    (λ path, match (list_to_map files : gmap string (list string)) !! path with
             | Some lines => Ok lines
             | None => Fail (errorString "no such file")
             end)
    sampleUnmarshal
    (λ text, "<p>" +:+ text +:+ "</p>")
    (list string) (λ names, Ok names) sampleExecute
    (λ path, if creatable path then None
             else Some (errorString "cannot create"))
    (λ _, None) (λ _, "https://example.org").

(** The text that the templates [names] give on [data] (when they are
    parsed without an error). *)
Definition documentText (W : World) (names : list string) (data : Data)
    : string :=
  match template_ParseFiles W names with
  | Ok tmpl => (template_Execute W tmpl data).1
  | Fail _ => ""
  end.

(** ** The [create] and [update] commands on the text of a post file *)

(** [strings.ReplaceAll(s, old, new)] for an [old] of one byte. *)
Fixpoint ReplaceAllByte (s : string) (old : ascii) (new : string) : string :=
  match s with
  | "" => ""
  | String c s =>
      if Ascii.eqb c old then new +:+ ReplaceAllByte s old new
      else String c (ReplaceAllByte s old new)
  end.

(** [c < utf8.RuneSelf] for every byte [c] of the string. *)
Fixpoint isASCII (s : string) : bool :=
  match s with
  | "" => true
  | String c s => (nat_of_ascii c <? 128)%nat && isASCII s
  end.

(** ['A' <= c && c <= 'Z'] *)
Definition isUpper (c : ascii) : bool :=
  (65 <=? nat_of_ascii c)%nat && (nat_of_ascii c <=? 90)%nat.

(** [if 'A' <= c && c <= 'Z' { c += 'a' - 'A' }] *)
Definition lowerByte (c : ascii) : ascii :=
  if isUpper c then ascii_of_nat (nat_of_ascii c + 32) else c.

Fixpoint lowerBytes (s : string) : string :=
  match s with
  | "" => ""
  | String c s => String (lowerByte c) (lowerBytes s)
  end.

(** [strings.ToLower]: byte by byte on a string of ASCII, and
    [strings.Map(unicode.ToLower, s)], here [lowerUnicode], on any
    other. *)
Definition ToLower (lowerUnicode : string → string) (s : string) : string :=
  if isASCII s then lowerBytes s else lowerUnicode s.

(** [slug := strings.ToLower(strings.ReplaceAll(title, " ", "-"))] *)
Definition createSlug (lowerUnicode : string → string) (title : string)
    : string :=
  ToLower lowerUnicode (ReplaceAllByte title " " "-").

(** What [create] writes: the name of the file and its text; [today] is
    [time.Now().Format("2006-01-02")]. *)
Definition createPost (lowerUnicode : string → string) (today : string)
    (title content tags date : string) : string * string :=
  let date := if bool_decide (date = "") then today else date in
  (postFileName (createSlug lowerUnicode title),
   createText title date tags content).

(** What [update] writes over the text it read. *)
Definition updateText (title content tags text : string) : string :=
  strings.Join
    (updateRange title content tags (SplitLines text) [] false).1 newline.

(** The lines that the loop of [update] appends to [newLines], from the
    mode [inFrontmatter] on. *)
Definition updated (title content tags : string) (lines : list string)
    (inFrontmatter : bool) : list string :=
  (updateRange title content tags lines [] inFrontmatter).1.

(** ** The [serve] command: [dispatchWorkflowHandler] *)

(** [strings.Split(s, sep)] for a [sep] of one byte. *)
Fixpoint SplitByte (s : string) (sep : ascii) : list string :=
  match s with
  | "" => [""]
  | String c s =>
      if Ascii.eqb c sep then "" :: SplitByte s sep
      else match SplitByte s sep with
           | part :: parts => String c part :: parts
           | [] => [String c ""]
           end
  end.

Module Dispatch.

(** The JSON object of a request, [var data struct {...}]. *)
Record Data : Type := mkData {
  Title : string;
  Content : string;
  Tags : string;
  Slug : string;
  Workflow : string;
  Secret : string;
}.

(** The request as the handler looks at it: the method and what
    [io.ReadAll(r.Body)] returns. *)
Record Request : Type := mkRequest {
  Method : string;
  Body : result string;
}.

(** The request that the handler sends to GitHub, a POST. *)
Record GitHubRequest : Type := mkGitHubRequest {
  URL : string;
  Header : list (string * string);
  Payload : string;
}.

(** The environment, the JSON codec and the HTTP client. *)
Record Server : Type := mkServer {
  os_Getenv : string → string;
  json_Unmarshal : string → result Data;
  json_Marshal : gmap string string → result string;
  (** [http.NewRequest("POST", url, body)]: the error, if any. *)
  http_NewRequest : string → string → option error;
  (** [client.Do(req)]: the status code and the body of the response. *)
  client_Do : GitHubRequest → result (nat * string);
}.

(** What a call of the handler does: it writes a response, after having
    sent a request to GitHub or not, or it panics. *)
Inductive Outcome : Type :=
  | Responded (status : nat) (body : string) (sent : option GitHubRequest)
  | Panicked.

(** [http.Error(w, msg, code)] *)
Definition httpError (msg : string) (code : nat)
    (sent : option GitHubRequest) : Outcome :=
  Responded code (msg +:+ newline) sent.

Definition clientPayload (data : Data) : gmap string string :=
  {[ "title" := Title data; "content" := Content data;
     "tags" := Tags data; "slug" := Slug data; "secret" := Secret data ]}.

Definition dispatchWorkflowHandler (S : Server) (r : Request) : Outcome :=
  if negb (bool_decide (Method r = "POST")) then
    httpError "Method Not Allowed" 405 None
  else match Body r with
  | Fail _ => httpError "Error reading request body" 500 None
  | Ok body =>
  match json_Unmarshal S body with
  | Fail _ => httpError "Error parsing JSON" 400 None
  | Ok data =>
  let expectedSecret := os_Getenv S "GH_HOST_SECRET" in
  if bool_decide (expectedSecret = "") then
    httpError "Server configuration error: GH_HOST_SECRET not set" 500 None
  else if negb (bool_decide (Secret data = expectedSecret)) then
    httpError "Invalid secret" 401 None
  else
  let githubToken := os_Getenv S "GITHUB_TOKEN" in
  if bool_decide (githubToken = "") then
    httpError "Server configuration error: GITHUB_TOKEN not set" 500 None
  else
  let repo := os_Getenv S "GITHUB_REPOSITORY" in
  if bool_decide (repo = "") then
    httpError "Server configuration error: GITHUB_REPOSITORY not set" 500 None
  else
  match SplitByte repo "/" !! 0, SplitByte repo "/" !! 1 with
  | Some owner, Some repoName =>
  match json_Marshal S (clientPayload data) with
  | Fail _ => httpError "Error marshalling client payload" 500 None
  | Ok payloadBytes =>
  let githubAPIURL :=
    "https://api.github.com/repos/" +:+ owner +:+ "/" +:+ repoName
      +:+ "/dispatches" in
  match http_NewRequest S githubAPIURL payloadBytes with
  | Some _ => httpError "Error creating GitHub API request" 500 None
  | None =>
  let req := mkGitHubRequest githubAPIURL
               [("Accept", "application/vnd.github.v3+json");
                ("Authorization", "Bearer " +:+ githubToken);
                ("Content-Type", "application/json")]
               payloadBytes in
  match client_Do S req with
  | Fail _ => httpError "Error sending request to GitHub API" 500 (Some req)
  | Ok (status, respBody) =>
      if negb (status =? 204)%nat then
        httpError ("Failed to dispatch workflow: " +:+ respBody) 500
                  (Some req)
      else Responded 200 "Workflow triggered successfully!" (Some req)
  end end end
  | _, _ => Panicked
  end end end.

(** A server for the examples: the secret is [s3cret], the JSON body is
    the secret itself, GitHub answers 204. *)
Definition sampleServer (repo : string) : Server :=
  mkServer
    (λ key, if bool_decide (key = "GH_HOST_SECRET") then "s3cret"
            else if bool_decide (key = "GITHUB_TOKEN") then "token"
            else if bool_decide (key = "GITHUB_REPOSITORY") then repo
            else "")
    (λ body, Ok (mkData "t" "c" "" "s" "create-post.yml" body))
    (λ payload, Ok "{}")
    (λ _ _, None)
    (λ _, Ok (204, "")).

(** The handler goes on to the repository: the request is a POST with a
    readable body that decodes to [data], the secret is configured and
    [data] carries it, and the token and the repository are configured. *)
Definition accepted (S : Server) (r : Request) (data : Data) : Prop :=
  Method r = "POST"
  ∧ (∃ text, Body r = Ok text ∧ json_Unmarshal S text = Ok data)
  ∧ os_Getenv S "GH_HOST_SECRET" ≠ ""
  ∧ Secret data = os_Getenv S "GH_HOST_SECRET"
  ∧ os_Getenv S "GITHUB_TOKEN" ≠ ""
  ∧ os_Getenv S "GITHUB_REPOSITORY" ≠ "".

(** The byte [c] does not occur in the string. *)
Definition without (c : ascii) (s : string) : Prop :=
  c ∉ String.list_ascii_of_string s.

End Dispatch.

(** * Properties *)

(** ** Strings *)

Section string_facts.
Implicit Types s t u : string.

Lemma app_cons c s t : String c s +:+ t = String c (s +:+ t).
Proof. reflexivity. Qed.

Lemma app_empty_l s : "" +:+ s = s.
Proof. reflexivity. Qed.

Lemma app_empty_r s : s +:+ "" = s.
Proof. induction s as [|c s IH]; [done|]. by rewrite app_cons, IH. Qed.

Lemma app_assoc_str s t u : (s +:+ t) +:+ u = s +:+ (t +:+ u).
Proof. induction s as [|c s IH]; [done|]. by rewrite !app_cons, IH. Qed.

Lemma length_app_str s t :
  String.length (s +:+ t) = String.length s + String.length t.
Proof.
  induction s as [|c s IH]; [done|]. rewrite app_cons. simpl. by rewrite IH.
Qed.

Lemma slice_to_app s t : strings.slice_to (String.length s) (s +:+ t) = s.
Proof.
  induction s as [|c s IH]; [by destruct t|].
  rewrite app_cons. simpl. by rewrite IH.
Qed.

Lemma slice_from_app s t : strings.slice_from (String.length s) (s +:+ t) = t.
Proof. induction s as [|c s IH]; [by destruct t|]. by rewrite app_cons. Qed.

Lemma slice_to_from s n :
  strings.slice_to n s +:+ strings.slice_from n s = s.
Proof.
  revert n. induction s as [|c s IH]; intros [|n]; simpl; try done.
  by rewrite app_cons, IH.
Qed.

Lemma HasPrefix_app s t : strings.HasPrefix (s +:+ t) s = true.
Proof.
  unfold strings.HasPrefix. rewrite slice_to_app, length_app_str.
  rewrite bool_decide_eq_true_2 by done.
  rewrite andb_true_r. apply Nat.leb_le. lia.
Qed.

Lemma HasSuffix_app s t : strings.HasSuffix (s +:+ t) t = true.
Proof.
  unfold strings.HasSuffix. rewrite length_app_str.
  replace (String.length s + String.length t - String.length t)
    with (String.length s) by lia.
  rewrite slice_from_app, bool_decide_eq_true_2 by done.
  rewrite andb_true_r. apply Nat.leb_le. lia.
Qed.

(** A string has a prefix exactly when it is the prefix followed by
    something. *)
Lemma HasPrefix_spec s p :
  strings.HasPrefix s p = true ↔ ∃ rest, s = p +:+ rest.
Proof.
  split.
  - unfold strings.HasPrefix. intros [_ Hp%bool_decide_eq_true]%andb_true_iff.
    exists (strings.slice_from (String.length p) s).
    rewrite <- (slice_to_from s (String.length p)) at 1. by f_equal.
  - intros [rest ->]. apply HasPrefix_app.
Qed.

Lemma HasSuffix_spec s p :
  strings.HasSuffix s p = true ↔ ∃ front, s = front +:+ p.
Proof.
  split.
  - unfold strings.HasSuffix. intros [_ Hp%bool_decide_eq_true]%andb_true_iff.
    exists (strings.slice_to (String.length s - String.length p) s).
    rewrite <- (slice_to_from s (String.length s - String.length p)) at 1.
    by f_equal.
  - intros [front ->]. apply HasSuffix_app.
Qed.

Lemma TrimPrefix_app s t : strings.TrimPrefix (s +:+ t) s = t.
Proof.
  unfold strings.TrimPrefix. by rewrite HasPrefix_app, slice_from_app.
Qed.

Lemma TrimSuffix_app s t : strings.TrimSuffix (s +:+ t) t = s.
Proof.
  unfold strings.TrimSuffix. rewrite HasSuffix_app, length_app_str.
  replace (String.length s + String.length t - String.length t)
    with (String.length s) by lia.
  apply slice_to_app.
Qed.

End string_facts.

(** ** Slug derivation *)

Lemma slugOf_postFileName stem : slugOf (postFileName stem) = stem.
Proof.
  unfold slugOf, postFileName.
  rewrite <- app_assoc_str, TrimSuffix_app. apply TrimPrefix_app.
Qed.

(** The path [readPosts] builds for an entry [stem.md] of the content
    directory is the file name the commands give the post [stem]. *)
Lemma pathOf_content_posts stem :
  pathOf "content/posts" (stem +:+ ".md") = postFileName stem.
Proof. reflexivity. Qed.

(** C4. The slug is a function of the file path alone; the path of the
    post file with stem [stem] in the content directory, with the
    extension [.md], has the slug [stem], so two such paths with different
    stems have different slugs and two with the same stem have the same;
    [content/posts/hello-world.md] has the slug [hello-world]. *)
Theorem slug_derivation :
  (∀ path1 path2, path1 = path2 → slugOf path1 = slugOf path2) ∧
  (∀ stem, slugOf (pathOf "content/posts" (stem +:+ ".md")) = stem) ∧
  (∀ stem1 stem2,
     (stem1 = stem2 →
      slugOf (postFileName stem1) = slugOf (postFileName stem2)) ∧
     (stem1 ≠ stem2 →
      slugOf (postFileName stem1) ≠ slugOf (postFileName stem2))) ∧
  slugOf "content/posts/hello-world.md" = "hello-world".
Proof.
  split_and!.
  - by intros ?? ->.
  - intros stem. rewrite pathOf_content_posts. apply slugOf_postFileName.
  - intros stem1 stem2. rewrite !slugOf_postFileName. by split.
  - apply (slugOf_postFileName "hello-world").
Qed.

Lemma slug_derivation_witness :
  slugOf (postFileName "a") ≠ slugOf (postFileName "b")
  ∧ slugOf (postFileName "a") = slugOf (postFileName "a").
Proof.
  destruct slug_derivation as (_ & _ & H & _).
  split.
  - apply (H "a" "b"). discriminate.
  - by apply (H "a" "a").
Defined.

(** ** The Metadata/Body Splitter *)

Lemma scanLines_snoc lines line :
  scanLines (lines ++ [line]) = scanLine (scanLines lines) line.
Proof. unfold scanLines. by rewrite foldl_snoc. Qed.

Lemma delimiters_snoc lines line :
  delimiters (lines ++ [line])
  = delimiters lines + (if isDelimiter line then 1 else 0).
Proof.
  unfold delimiters. rewrite filter_app, length_app. f_equal.
  rewrite filter_cons, filter_nil. by destruct (isDelimiter line).
Qed.

Lemma delimiters_cons line lines :
  delimiters (line :: lines)
  = (if isDelimiter line then 1 else 0) + delimiters lines.
Proof.
  unfold delimiters. rewrite filter_cons. by destruct (isDelimiter line).
Qed.

Lemma isDelimiter_spec line :
  isDelimiter line = true ↔ ∃ rest, line = "---" +:+ rest.
Proof. apply HasPrefix_spec. Qed.

(** The loop invariant: [count] counts the delimiters read so far and the
    splitter is in metadata mode exactly between the first and the second. *)
Lemma scanLines_mode lines :
  count (scanLines lines) = delimiters lines
  ∧ inFrontmatter (scanLines lines) = bool_decide (delimiters lines = 1).
Proof.
  induction lines as [|line lines [IHc IHm]] using rev_ind; [done|].
  rewrite scanLines_snoc, delimiters_snoc.
  destruct (scanLines lines) as [fm body mode n]. simpl in IHc, IHm.
  subst n mode. unfold scanLine, collect.
  destruct (isDelimiter line); simpl.
  - destruct (delimiters lines) as [|[|n]]; simpl; [done..|].
    split; [lia|done].
  - rewrite Nat.add_0_r. by destruct (bool_decide (delimiters lines = 1)).
Qed.

(** C2, as the code has it. A line is a delimiter exactly when it starts
    with three hyphens, whatever follows them. The first delimiter of the
    input switches the splitter from body mode into metadata mode, the
    second switches it back, and no other line changes the mode: a line
    that is not a delimiter never does, and a third or later delimiter is
    kept as a line of the body. *)
Theorem splitter_mode_switches (before : list string) (line : string) :
  let st := scanLines before in
  let st' := scanLine st line in
  (isDelimiter line = true ↔ ∃ rest, line = "---" +:+ rest) ∧
  (inFrontmatter st' ≠ inFrontmatter st
   ↔ isDelimiter line = true ∧ delimiters before < 2) ∧
  (isDelimiter line = true ∧ delimiters before = 0
   → inFrontmatter st = false ∧ inFrontmatter st' = true) ∧
  (isDelimiter line = true ∧ delimiters before = 1
   → inFrontmatter st = true ∧ inFrontmatter st' = false) ∧
  (isDelimiter line = true ∧ 2 ≤ delimiters before
   → frontmatter st' = frontmatter st ∧ content st' = content st ++ [line]).
Proof.
  intros st st'. subst st st'.
  split; [apply isDelimiter_spec|].
  destruct (scanLines_mode before) as [Hc Hm].
  destruct (scanLines before) as [fm body mode n]. simpl in Hc, Hm.
  subst n mode. unfold scanLine, collect.
  destruct (isDelimiter line); simpl.
  - destruct (delimiters before) as [|[|n]]; simpl;
      (split_and!; [split|..]); try done; try lia;
      try (intros [_ ?]; lia); try (intros _; split; [done|lia]).
  - destruct (bool_decide (delimiters before = 1)); simpl;
      (split_and!; [split|..]); try done; by intros [? _].
Qed.

Lemma splitter_mode_switches_witness :
  inFrontmatter (scanLines ["intro"]) = false
  ∧ inFrontmatter (scanLine (scanLines ["intro"]) "---") = true.
Proof.
  apply (splitter_mode_switches ["intro"] "---"). split; reflexivity.
Defined.

(** The claim C2 as the spec words it fails: a line that is not exactly
    three hyphens switches the mode. *)
Lemma splitter_delimiter_is_prefix :
  "--- draft" ≠ "---"
  ∧ inFrontmatter (scanLines []) = false
  ∧ inFrontmatter (scanLine (scanLines []) "--- draft") = true
  ∧ frontmatter (scanLines ["--- draft"; "title: a"; "----"; "text"])
    = ["title: a"]
  ∧ content (scanLines ["--- draft"; "title: a"; "----"; "text"])
    = ["text"].
Proof. split_and!; [discriminate|reflexivity..]. Qed.

(** Lines added in front of the input, none of them a delimiter, are
    added in front of the body and change nothing else. *)
Lemma scanLine_withBody lead st line :
  scanLine (withBody lead st) line = withBody lead (scanLine st line).
Proof.
  unfold scanLine, collect, withBody. simpl.
  repeat case_match; simpl in *; try congruence;
    by rewrite ?(assoc_L (++)).
Qed.

Lemma foldl_scanLine_withBody lead lines st :
  foldl scanLine (withBody lead st) lines
  = withBody lead (foldl scanLine st lines).
Proof.
  revert st. induction lines as [|line lines IH]; intros st; [done|].
  simpl. by rewrite scanLine_withBody, IH.
Qed.

Lemma scanLines_no_delimiter lines :
  Forall (λ line, isDelimiter line = false) lines →
  scanLines lines = mkSplitter [] lines false 0.
Proof.
  induction lines as [|line lines IH] using rev_ind; [done|].
  intros [Hlines Hline]%Forall_app. rewrite Forall_singleton in Hline.
  rewrite scanLines_snoc, (IH Hlines).
  unfold scanLine, collect. simpl. by rewrite Hline.
Qed.

Lemma scanLines_lead lead lines :
  Forall (λ line, isDelimiter line = false) lead →
  scanLines (lead ++ lines) = withBody lead (scanLines lines).
Proof.
  intros Hlead. unfold scanLines at 1. rewrite foldl_app.
  fold (scanLines lead). rewrite (scanLines_no_delimiter lead Hlead).
  unfold scanLines at 1.
  rewrite <- (foldl_scanLine_withBody lead lines splitter_init).
  unfold withBody. simpl. by rewrite (right_id_L [] (++)).
Qed.

(** C3, as the code has it. The lines before the first delimiter are not
    discarded: they are kept, in order, at the head of the body, in front
    of what the rest of the input contributes to it. They never reach the
    metadata block, which is that of the input without them. *)
Theorem lines_before_first_delimiter
    (lead : list string) (delimiter : string) (rest : list string) :
  Forall (λ line, isDelimiter line = false) lead →
  isDelimiter delimiter = true →
  frontmatter (scanLines (lead ++ delimiter :: rest))
  = frontmatter (scanLines (delimiter :: rest))
  ∧ content (scanLines (lead ++ delimiter :: rest))
    = lead ++ content (scanLines (delimiter :: rest)).
Proof. intros Hlead _. by rewrite scanLines_lead. Qed.

Lemma lines_before_first_delimiter_witness :
  let lead := ["intro"; "more"] in
  let rest := ["title: x"; "---"; "body"] in
  frontmatter (scanLines (lead ++ "---" :: rest))
  = frontmatter (scanLines ("---" :: rest))
  ∧ content (scanLines (lead ++ "---" :: rest))
    = lead ++ content (scanLines ("---" :: rest)).
Proof.
  apply (lines_before_first_delimiter ["intro"; "more"] "---").
  - repeat constructor.
  - reflexivity.
Defined.

(** The claim C3 as the spec words it fails: a line before the first
    delimiter is part of the body. *)
Lemma lead_line_is_in_body :
  let lines := ["intro"; "---"; "title: x"; "---"; "body"] in
  isDelimiter "intro" = false
  ∧ isDelimiter "---" = true
  ∧ frontmatter (scanLines lines) = ["title: x"]
  ∧ content (scanLines lines) = ["intro"; "body"]
  ∧ "intro" ∈ content (scanLines lines).
Proof. split_and!; [reflexivity..|]. apply list_elem_of_here. Qed.

(** X21. The [update] command takes the same lines for delimiters, and
    there every one of them switches the mode: without new content the
    loop ends inside the metadata block exactly when it has read an odd
    number of delimiters. *)
Lemma updateRange_mode title tags lines newLines inFrontmatter :
  (updateRange title "" tags lines newLines inFrontmatter).2
  = xorb inFrontmatter (Nat.odd (delimiters lines)).
Proof.
  revert newLines inFrontmatter.
  induction lines as [|line lines IH]; intros newLines inFrontmatter.
  - by destruct inFrontmatter.
  - rewrite delimiters_cons. simpl. fold (isDelimiter line).
    destruct (isDelimiter line); simpl.
    + rewrite IH, Nat.odd_succ, <- Nat.negb_odd.
      by destruct inFrontmatter, (Nat.odd (delimiters lines)).
    + destruct inFrontmatter; apply IH.
Qed.

Example update_third_delimiter :
  updateRange "New" "" ""
    ["---"; "title: a"; "---"; "text"; "---"; "title: b"] [] false
  = (["---"; "title: New"; "---"; "text"; "---"; "title: New"], true)
  ∧ content (scanLines ["---"; "title: a"; "---"; "text"; "---"; "title: b"])
    = ["text"; "---"; "title: b"].
Proof. split; reflexivity. Qed.

(** The sample post file is a file that [create] writes. *)
Example createText_sample :
  createText "Hello World" "2024-01-01" "intro, test" "# Hi"
  = strings.Join helloLines newline.
Proof. reflexivity. Qed.

(** *** The file that [create] writes *)

Lemma SplitLines_nonempty text : SplitLines text ≠ [].
Proof.
  destruct text as [|c text]; [done|]. simpl.
  destruct (Ascii.eqb c (ascii_of_nat 10)); [done|].
  by destruct (SplitLines text).
Qed.

Lemma SplitLines_app line text :
  singleLine line →
  SplitLines (line +:+ newline +:+ text) = line :: SplitLines text.
Proof.
  unfold singleLine. induction line as [|c line IH]; [done|].
  rewrite app_cons. simpl.
  destruct (Ascii.eqb c (ascii_of_nat 10)); [done|].
  destruct (SplitLines line) as [|first rest] eqn:Hline.
  - by apply SplitLines_nonempty in Hline.
  - intros [= -> ->]. by rewrite IH.
Qed.

Lemma singleLine_app text1 text2 :
  singleLine text1 → singleLine text2 → singleLine (text1 +:+ text2).
Proof.
  unfold singleLine. induction text1 as [|c text1 IH]; [done|].
  rewrite app_cons. simpl.
  destruct (Ascii.eqb c (ascii_of_nat 10)); [done|].
  destruct (SplitLines text1) as [|first rest] eqn:Htext1.
  - by apply SplitLines_nonempty in Htext1.
  - intros [= -> ->] H2. by rewrite IH.
Qed.

Lemma SplitLines_createText title date tags text :
  singleLine title → singleLine date → singleLine tags →
  SplitLines (createText title date tags text)
  = ["---"; "title: " +:+ title; "date: " +:+ date;
     "tags: [" +:+ tags +:+ "]"; "---"; ""] ++ SplitLines text.
Proof.
  intros Htitle Hdate Htags. unfold createText.
  rewrite (SplitLines_app "---") by done.
  rewrite <- (app_assoc_str "title: " title).
  rewrite (SplitLines_app ("title: " +:+ title))
    by by apply (singleLine_app "title: ").
  rewrite <- (app_assoc_str "date: " date).
  rewrite (SplitLines_app ("date: " +:+ date))
    by by apply (singleLine_app "date: ").
  rewrite <- (app_assoc_str tags "]"), <- (app_assoc_str "tags: [").
  rewrite (SplitLines_app ("tags: [" +:+ tags +:+ "]")).
  - rewrite (SplitLines_app "---") by done.
    change (newline +:+ text) with ("" +:+ newline +:+ text).
    by rewrite (SplitLines_app "").
  - apply (singleLine_app "tags: ["); [done|].
    by apply singleLine_app.
Qed.

(** After the closing delimiter every line is a line of the body. *)
Lemma foldl_scanLine_body lines st :
  inFrontmatter st = false → 2 ≤ count st →
  foldl scanLine st lines
  = mkSplitter (frontmatter st) (content st ++ lines) false
               (count st + delimiters lines).
Proof.
  revert st. induction lines as [|line lines IH]; intros [fm body mode n];
    simpl; intros -> Hn.
  - by rewrite (right_id_L [] (++)), Nat.add_0_r.
  - rewrite delimiters_cons. unfold scanLine at 2, collect. simpl.
    destruct (isDelimiter line); simpl.
    + destruct n as [|[|n]]; [lia..|]. simpl.
      rewrite IH by (simpl; done || lia). simpl.
      rewrite <- (assoc_L (++)). do 2 f_equal. lia.
    + rewrite IH by done. simpl. by rewrite <- (assoc_L (++)).
Qed.

(** The splitter gives back the metadata block that [create] wrote, line
    for line, and the content, after the empty line that [create] puts
    in front of it, as the body, delimiters in it included. *)
Lemma scanLines_createText title date tags text :
  singleLine title → singleLine date → singleLine tags →
  let st := scanLines (SplitLines (createText title date tags text)) in
  frontmatter st
  = ["title: " +:+ title; "date: " +:+ date; "tags: [" +:+ tags +:+ "]"]
  ∧ content st = "" :: SplitLines text.
Proof.
  intros Htitle Hdate Htags.
  rewrite (SplitLines_createText title date tags text) by done.
  unfold scanLines. rewrite foldl_app.
  change (foldl scanLine splitter_init
            ["---"; "title: " +:+ title; "date: " +:+ date;
             "tags: [" +:+ tags +:+ "]"; "---"; ""])
    with (mkSplitter
            ["title: " +:+ title; "date: " +:+ date;
             "tags: [" +:+ tags +:+ "]"] [""] false 2).
  by rewrite foldl_scanLine_body.
Qed.

(** The title has to be a single line for that: a line of the title that
    starts with three hyphens closes the metadata block, and the date and
    the tags become lines of the body. *)
Example scanLines_createText_title_lines :
  let title := "a" +:+ newline +:+ "--- b" in
  let st := scanLines
              (SplitLines (createText title "2024-01-01" "x" "body")) in
  frontmatter st = ["title: a"]
  ∧ content st = ["date: 2024-01-01"; "tags: [x]"; "---"; ""; "body"].
Proof. split; reflexivity. Qed.

(** ** Reading a post *)

(** [readPost] checks no field: it fails when the file cannot be opened
    or when the decoder fails, and at no other time. *)
Lemma readPost_Ok W fileName baseURL lines post :
  os_Open W fileName = Ok lines →
  yaml_Unmarshal W
    (strings.Join (frontmatter (scanLines lines)) newline) zeroPost
  = Ok post →
  readPost W fileName baseURL
  = Ok (mkPost (Title post) (Date post) (Tags post)
          (markdown_ToHTML W
             (strings.Join (content (scanLines lines)) newline))
          (slugOf fileName) baseURL).
Proof.
  intros Hopen Hyaml. unfold readPost. rewrite Hopen. simpl. by rewrite Hyaml.
Qed.

Lemma readPost_Fail W fileName baseURL e :
  readPost W fileName baseURL = Fail e ↔
  os_Open W fileName = Fail e
  ∨ ∃ lines, os_Open W fileName = Ok lines
      ∧ yaml_Unmarshal W
          (strings.Join (frontmatter (scanLines lines)) newline) zeroPost
        = Fail e.
Proof.
  unfold readPost. destruct (os_Open W fileName) as [lines|e'] eqn:Hopen; simpl.
  - destruct (yaml_Unmarshal W _ zeroPost) as [post|e''] eqn:Hyaml; simpl.
    + split; [done|]. intros [?|(lines' & ? & ?)]; simplify_eq. congruence.
    + split.
      * intros [= ->]. right. by exists lines.
      * intros [?|(lines' & ? & ?)]; simplify_eq. congruence.
  - split.
    + intros [= ->]. by left.
    + intros [?|(lines' & ? & ?)]; by simplify_eq.
Qed.



(** The claim C9 as the spec words it fails. No line of this file is a
    line of exactly three hyphens, yet the rule of its Markdown table
    starts with three hyphens: it opens the metadata block, the line in
    front of it is the whole body, the row under it is handed to the
    decoder, and with a decoder that accepts the empty document and
    refuses that row reading the post ends with an error. *)
Lemma table_rule_opens_metadata :
  let lines := ["a | b"; "---|---"; "1 | 2"] in
  let W := siteWorld [mkDirEntry "table.md" false]
             [("content/posts/table.md", lines)] (λ _, true) in
  Forall (λ line, line ≠ "---") lines
  ∧ os_Open W "content/posts/table.md" = Ok lines
  ∧ yaml_Unmarshal W "" zeroPost = Ok zeroPost
  ∧ frontmatter (scanLines lines) = ["1 | 2"]
  ∧ content (scanLines lines) = ["a | b"]
  ∧ content (scanLines lines) ≠ lines
  ∧ readPost W "content/posts/table.md" ""
    = Fail (errorString "yaml: unknown document")
  ∧ readPosts W "content/posts" ""
    = Fail (errorString "yaml: unknown document").
Proof.
  simpl. split_and!; try by vm_compute.
  repeat constructor; discriminate.
Qed.

(** ** The TagIndex *)

Lemma group_appendTag post tags t tag :
  group (appendTag post tags t) tag
  = group tags tag ++ (if decide (t = tag) then [post] else []).
Proof.
  unfold group, appendTag. destruct (decide (t = tag)) as [->|Hne].
  - by rewrite lookup_insert_eq.
  - by rewrite lookup_insert_ne, (right_id_L [] (++)).
Qed.

Lemma group_foldl_appendTag post ts tags tag :
  group (foldl (appendTag post) tags ts) tag
  = group tags tag ++ replicate (length (filter (λ t, t = tag) ts)) post.
Proof.
  revert tags. induction ts as [|t ts IH]; intros tags; simpl.
  - by rewrite (right_id_L [] (++)).
  - rewrite IH, group_appendTag, filter_cons.
    destruct (decide (t = tag)); simpl.
    + by rewrite <- (assoc_L (++)).
    + by rewrite (right_id_L [] (++)).
Qed.

Lemma group_foldl_posts posts tags tag :
  group (foldl (λ tags post, foldl (appendTag post) tags (Tags post))
           tags posts) tag
  = group tags tag ++ (posts ≫= occurrences tag).
Proof.
  revert tags. induction posts as [|post posts IH]; intros tags; simpl.
  - by rewrite (right_id_L [] (++)).
  - by rewrite IH, group_foldl_appendTag, <- (assoc_L (++)).
Qed.

Lemma group_buildTagIndex posts tag :
  group (buildTagIndex posts) tag = posts ≫= occurrences tag.
Proof. unfold buildTagIndex. by rewrite group_foldl_posts. Qed.

(** No group of the TagIndex is empty: a key is made when the first post
    is appended to it. *)
Lemma appendTag_nonempty post tags t :
  map_Forall (λ _ posts, posts ≠ []) tags →
  map_Forall (λ _ posts, posts ≠ []) (appendTag post tags t).
Proof.
  intros Htags. apply map_Forall_insert_2; [|done].
  by destruct (default [] (tags !! t)).
Qed.

Lemma buildTagIndex_nonempty posts :
  map_Forall (λ _ posts, posts ≠ []) (buildTagIndex posts).
Proof.
  unfold buildTagIndex.
  assert (∀ post ts tags,
    map_Forall (λ _ posts, posts ≠ []) tags →
    map_Forall (λ _ posts, posts ≠ [])
      (foldl (appendTag post) tags ts)) as Hinner.
  { intros post ts. induction ts as [|t ts IH]; intros tags Htags; [done|].
    simpl. by apply IH, appendTag_nonempty. }
  generalize (map_Forall_empty (M:=gmap string)
                (λ (_ : string) (posts : list Post), posts ≠ [])).
  generalize (∅ : gmap string (list Post)).
  induction posts as [|post posts IH]; intros tags Htags; [done|].
  simpl. by apply IH, Hinner.
Qed.

Lemma elem_of_occurrences post tag post' :
  post ∈ occurrences tag post' ↔ post = post' ∧ tag ∈ Tags post'.
Proof.
  unfold occurrences. rewrite elem_of_replicate.
  rewrite length_zero_iff_nil. split.
  - intros [-> Hne]. split; [done|].
    destruct (filter _ (Tags post')) as [|t ts] eqn:Hf; [done|].
    assert (t ∈ filter (λ t, t = tag) (Tags post')) as Ht
      by (rewrite Hf; left).
    by apply list_elem_of_filter in Ht as [-> ?].
  - intros [-> Hin]. split; [done|]. intros Hf.
    assert (tag ∈ filter (λ t, t = tag) (Tags post')) as Ht
      by by apply list_elem_of_filter.
    rewrite Hf in Ht. by apply not_elem_of_nil in Ht.
Qed.

Lemma elem_of_group_buildTagIndex posts tag post :
  post ∈ group (buildTagIndex posts) tag
  ↔ post ∈ posts ∧ tag ∈ Tags post.
Proof.
  rewrite group_buildTagIndex, list_elem_of_bind. split.
  - intros (post' & [-> ?]%elem_of_occurrences & ?). done.
  - intros [? ?]. exists post. by rewrite elem_of_occurrences.
Qed.

Lemma lookup_buildTagIndex_Some posts tag :
  is_Some (buildTagIndex posts !! tag)
  ↔ ∃ post, post ∈ posts ∧ tag ∈ Tags post.
Proof.
  split.
  - intros [posts' Hlookup].
    pose proof (buildTagIndex_nonempty posts tag posts' Hlookup) as Hne.
    destruct posts' as [|post posts'']; [done|].
    exists post. apply elem_of_group_buildTagIndex.
    unfold group. rewrite Hlookup. left.
  - intros (post & Hin & Htag).
    assert (post ∈ group (buildTagIndex posts) tag) as Hgroup
      by by apply elem_of_group_buildTagIndex.
    unfold group in Hgroup.
    destruct (buildTagIndex posts !! tag); [done|].
    by apply not_elem_of_nil in Hgroup.
Qed.

Lemma occurrences_NoDup tag post :
  NoDup (Tags post) →
  occurrences tag post = if decide (tag ∈ Tags post) then [post] else [].
Proof.
  unfold occurrences. induction 1 as [|t ts Hnotin _ IH]; [done|].
  rewrite filter_cons. destruct (decide (t = tag)) as [->|Hne].
  - rewrite decide_True by left. simpl.
    rewrite decide_False in IH by done. by rewrite IH.
  - rewrite IH. destruct (decide (tag ∈ ts)).
    + rewrite decide_True; [done|by right].
    + rewrite decide_False; [done|]. by intros [?|?]%elem_of_cons.
Qed.

Lemma bind_occurrences_NoDup tag posts :
  Forall (λ post, NoDup (Tags post)) posts →
  posts ≫= occurrences tag = filter (λ post, tag ∈ Tags post) posts.
Proof.
  induction 1 as [|post posts Hpost _ IH]; [done|].
  rewrite bind_cons, filter_cons, IH, occurrences_NoDup by done.
  by destruct (decide (tag ∈ Tags post)).
Qed.

Lemma dom_groupsOf posts post :
  post ∈ posts →
  dom (groupsOf post (buildTagIndex posts)) = list_to_set (Tags post).
Proof.
  intros Hin. apply dom_filter_L. intros tag.
  rewrite elem_of_list_to_set. simpl. split.
  - intros Htag.
    assert (post ∈ group (buildTagIndex posts) tag) as Hgroup
      by by apply elem_of_group_buildTagIndex.
    unfold group in Hgroup.
    destruct (buildTagIndex posts !! tag) as [posts'|]; [by exists posts'|].
    by apply not_elem_of_nil in Hgroup.
  - intros (posts' & Hlookup & Hpost).
    apply (elem_of_group_buildTagIndex posts tag post).
    unfold group. by rewrite Hlookup.
Qed.

(** C1, as the code has it. The group of a tag holds the posts in the
    order they were read, every post once for each time the tag is
    written in its tags; a tag has a group exactly when some post carries
    it. When no post repeats a tag, the group of a tag is the posts that
    carry it, each once and in the order read, and a post with N tags is
    in N groups. *)
Theorem tag_index_groups (posts : list Post) :
  (∀ tag, group (buildTagIndex posts) tag = posts ≫= occurrences tag) ∧
  (∀ tag, is_Some (buildTagIndex posts !! tag)
          ↔ ∃ post, post ∈ posts ∧ tag ∈ Tags post) ∧
  (Forall (λ post, NoDup (Tags post)) posts →
   (∀ tag, group (buildTagIndex posts) tag
           = filter (λ post, tag ∈ Tags post) posts) ∧
   (∀ post, post ∈ posts →
            size (groupsOf post (buildTagIndex posts))
            = length (Tags post))).
Proof.
  split_and!.
  - apply group_buildTagIndex.
  - apply lookup_buildTagIndex_Some.
  - intros Hnodup. split.
    + intros tag. by rewrite group_buildTagIndex, bind_occurrences_NoDup.
    + intros post Hin.
      rewrite <- (size_dom (D:=gset string)), dom_groupsOf by done.
      apply size_list_to_set.
      by apply (proj1 (Forall_forall _ _) Hnodup).
Qed.

Lemma tag_index_groups_witness :
  group (buildTagIndex [helloPost; secondPost]) "test"
  = [helloPost; secondPost]
  ∧ size (groupsOf helloPost (buildTagIndex [helloPost; secondPost])) = 2.
Proof.
  destruct (tag_index_groups [helloPost; secondPost]) as (_ & _ & H).
  destruct H as [Hgroup Hsize].
  - by apply (bool_decide_unpack _).
  - split.
    + apply (Hgroup "test").
    + apply (Hsize helloPost). left.
Defined.

(** The claim C1 as the spec words it fails on a post that writes a tag
    twice: the post is twice in the group of the tag, and it has two tags
    and is in one group. *)
Lemma repeated_tag_twice_in_group :
  Tags repeatedTagPost = ["go"; "go"]
  ∧ group (buildTagIndex [repeatedTagPost]) "go"
    = [repeatedTagPost; repeatedTagPost]
  ∧ size (groupsOf repeatedTagPost (buildTagIndex [repeatedTagPost])) = 1.
Proof. split_and!; reflexivity. Qed.

(** ** The Collection Reader *)

Lemma traverse_Ok {A B} (f : A → result B) l ys :
  traverse f l = Ok ys ↔ Forall2 (λ x y, f x = Ok y) l ys.
Proof.
  revert ys. induction l as [|x l IH]; intros ys; simpl.
  - split; [intros [= <-]; constructor|by inversion 1].
  - split.
    + destruct (f x) as [y|e] eqn:Hfx; simpl; [|done].
      destruct (traverse f l) as [ys'|e] eqn:Hl; simpl; [|done].
      intros [= <-]. constructor; [done|]. by apply IH.
    + inversion 1 as [|? y ? ys' Hy Hys]; subst.
      rewrite Hy. simpl. apply IH in Hys. by rewrite Hys.
Qed.

Lemma traverse_Fail {A B} (f : A → result B) l e :
  traverse f l = Fail e ↔
  ∃ before x after, l = before ++ x :: after
    ∧ Forall (λ x, is_Ok (f x) = true) before ∧ f x = Fail e.
Proof.
  induction l as [|x l IH]; simpl.
  - split; [done|]. intros (before & ? & ? & Heq & _).
    by destruct before.
  - destruct (f x) as [y|e'] eqn:Hfx; simpl.
    + destruct (traverse f l) as [ys'|e''] eqn:Hl; simpl.
      * split; [done|]. intros ([|x' before] & x'' & after & Heq & Hb & Hx).
        -- simplify_eq/=. congruence.
        -- simplify_eq/=. apply Forall_cons in Hb as [_ Hb].
           assert (Ok ys' = Fail e) as Habs; [|done].
           apply IH. by exists before, x'', after.
      * split.
        -- intros [= ->]. destruct (proj1 IH eq_refl)
             as (before & x' & after & -> & Hb & Hx).
           exists (x :: before), x', after. split_and!; [done| |done].
           constructor; [by rewrite Hfx|done].
        -- intros ([|x' before] & x'' & after & Heq & Hb & Hx).
           ++ simplify_eq/=. congruence.
           ++ simplify_eq/=. apply Forall_cons in Hb as [_ Hb].
              f_equal.
              assert (Fail e'' = Fail (A:=list B) e) as [= ->]; [|done].
              apply IH. by exists before, x'', after.
    + split.
      * intros [= ->]. exists [], x, l. by split_and!.
      * intros ([|x' before] & x'' & after & Heq & Hb & Hx).
        -- simplify_eq/=. congruence.
        -- simplify_eq/=. apply Forall_cons in Hb as [Hx' _].
           by rewrite Hfx in Hx'.
Qed.

(** The loop of [readPosts] is the fail-fast traversal of the selected
    entries. *)
Lemma readPosts_range_traverse W dir baseURL files posts :
  readPosts_range W dir baseURL files posts
  = try more ← traverse (λ file, readPost W (pathOf dir (Name file)) baseURL)
                  (filter (λ file, selected file = true) files);
    Ok (posts ++ more).
Proof.
  revert posts. induction files as [|file files IH]; intros posts; simpl.
  - by rewrite (right_id_L [] (++)).
  - rewrite filter_cons. destruct (selected file) eqn:Hsel; simpl.
    + destruct (readPost W _ baseURL) as [post|e]; simpl; [|done].
      rewrite IH.
      destruct (traverse _ _) as [more|e]; simpl; [|done].
      by rewrite <- (assoc_L (++)).
    + apply IH.
Qed.

Lemma readPosts_traverse W dir baseURL :
  readPosts W dir baseURL
  = try files ← os_ReadDir W dir;
    traverse (λ file, readPost W (pathOf dir (Name file)) baseURL)
             (filter (λ file, selected file = true) files).
Proof.
  unfold readPosts. destruct (os_ReadDir W dir) as [files|e]; simpl; [|done].
  rewrite readPosts_range_traverse. by destruct (traverse _ _).
Qed.

Lemma selected_spec file :
  selected file = true
  ↔ IsDir file = false ∧ ∃ stem, Name file = stem +:+ ".md".
Proof.
  unfold selected.
  rewrite andb_true_iff, negb_true_iff, HasSuffix_spec. done.
Qed.

(** C6. [readPosts] fails with the error of [os.ReadDir] when the
    directory cannot be read. Otherwise it reads the direct entries that
    are not directories and whose name ends in [.md], and no other: it
    returns posts exactly when every one of these is read, one post for
    each in the order of the entries; and it fails with an error exactly
    when that is the error of the first entry that cannot be read, be it
    that the file cannot be opened or that its metadata cannot be decoded,
    in which case no post is returned. *)
Theorem readPosts_fail_fast W dir baseURL :
  let read file := readPost W (pathOf dir (Name file)) baseURL in
  (∀ file, selected file = true
           ↔ IsDir file = false ∧ ∃ stem, Name file = stem +:+ ".md") ∧
  (∀ fileName e,
     readPost W fileName baseURL = Fail e ↔
     os_Open W fileName = Fail e
     ∨ ∃ lines, os_Open W fileName = Ok lines
         ∧ yaml_Unmarshal W
             (strings.Join (frontmatter (scanLines lines)) newline) zeroPost
           = Fail e) ∧
  match os_ReadDir W dir with
  | Fail e => readPosts W dir baseURL = Fail e
  | Ok files =>
      let entries := filter (λ file, selected file = true) files in
      (∀ posts,
         readPosts W dir baseURL = Ok posts
         ↔ Forall2 (λ file post, read file = Ok post) entries posts) ∧
      (∀ e, readPosts W dir baseURL = Fail e
            ↔ ∃ before file after, entries = before ++ file :: after
                ∧ Forall (λ file, is_Ok (read file) = true) before
                ∧ read file = Fail e)
  end.
Proof.
  intros read. split_and!.
  - apply selected_spec.
  - intros fileName e. apply readPost_Fail.
  - rewrite readPosts_traverse.
    destruct (os_ReadDir W dir) as [files|e]; simpl; [|done]. split.
    + intros posts. apply traverse_Ok.
    + intros e. apply traverse_Fail.
Qed.

Example readPosts_sample :
  readPosts sampleWorld "content/posts" "https://example.org"
  = Ok [mkPost "" "" [] "<p>just text
more text</p>" "a-post" "https://example.org";
        mkPost "Hello World" "2024-01-01" ["intro"; "test"] "<p>
# Hi</p>" "hello-world" "https://example.org"].
Proof. reflexivity. Qed.

(** ** The order of the collection *)

Lemma readPost_Slug W fileName baseURL post :
  readPost W fileName baseURL = Ok post → Slug post = slugOf fileName.
Proof.
  unfold readPost. destruct (os_Open W fileName); simpl; [|done].
  destruct (yaml_Unmarshal W _ zeroPost); simpl; [|done]. by intros [= <-].
Qed.

Lemma sourceName_readPost W baseURL file post :
  selected file = true →
  readPost W (pathOf "content/posts" (Name file)) baseURL = Ok post →
  sourceName post = Name file.
Proof.
  intros [_ [stem Hname]]%selected_spec Hread.
  apply readPost_Slug in Hread. unfold sourceName.
  by rewrite Hread, Hname, pathOf_content_posts, slugOf_postFileName.
Qed.

Lemma sourceName_readPosts W baseURL files posts :
  os_ReadDir W "content/posts" = Ok files →
  readPosts W "content/posts" baseURL = Ok posts →
  sourceName <$> posts = Name <$> filter (λ file, selected file = true) files.
Proof.
  intros Hdir. rewrite readPosts_traverse, Hdir. simpl.
  intros Hread%traverse_Ok.
  assert (Forall (λ file, selected file = true)
            (filter (λ file, selected file = true) files)) as Hsel.
  { apply Forall_forall. by intros file [? _]%list_elem_of_filter. }
  induction Hread as [|file post entries posts Hpost _ IH]; [done|].
  apply Forall_cons in Hsel as [Hfile Hsel]. csimpl.
  by rewrite IH, (sourceName_readPost W baseURL file post).
Qed.

Global Instance byName_trans : Transitive byName.
Proof. intros file1 file2 file3. unfold byName. apply transitivity. Qed.

Lemma StronglySorted_filter {A} (R : relation A) (P : A → Prop)
    `{!∀ x, Decision (P x)} l :
  StronglySorted R l → StronglySorted R (filter P l).
Proof.
  induction 1 as [|x l _ IH Hx]; [constructor|].
  rewrite filter_cons. destruct (decide (P x)); [|done].
  constructor; [done|]. apply Forall_forall.
  intros y [_ Hy]%list_elem_of_filter.
  by apply (proj1 (Forall_forall _ _) Hx).
Qed.

Lemma StronglySorted_fmap_inv {A B} (f : A → B) (R : relation B) l :
  StronglySorted R (f <$> l) → StronglySorted (λ x y, R (f x) (f y)) l.
Proof.
  induction l as [|x l IH]; [constructor|]. csimpl.
  intros [Hx Hl]%StronglySorted_cons. constructor; [by apply IH|].
  exact (proj1 (Forall_fmap f (R (f x)) l) Hx).
Qed.

Lemma StronglySorted_replicate {A} (R : relation A) `{!Reflexive R} n x :
  StronglySorted R (replicate n x).
Proof.
  induction n as [|n IH]; simpl; constructor; [done|].
  by apply Forall_replicate.
Qed.

(** A list in order stays in order when its elements are repeated in
    place or left out. *)
Lemma StronglySorted_bind_replicate {A} (R : relation A) `{!Reflexive R}
    (n : A → nat) l :
  StronglySorted R l → StronglySorted R (l ≫= λ x, replicate (n x) x).
Proof.
  induction 1 as [|x l _ IH Hx]; [constructor|].
  rewrite bind_cons. apply StronglySorted_app_2.
  - intros x1 x2 [-> _]%elem_of_replicate
      (y & [-> _]%elem_of_replicate & Hy)%list_elem_of_bind.
    by apply (proj1 (Forall_forall _ _) Hx).
  - by apply StronglySorted_replicate.
  - done.
Qed.

(** ** The Page Composer *)

(** *** Writing documents *)

Lemma writeAll_app docs1 docs2 fs :
  writeAll (docs1 ++ docs2) fs = writeAll docs2 (writeAll docs1 fs).
Proof. unfold writeAll. by rewrite foldl_app. Qed.

(** Writing overlays the documents on the output location, a later
    document of a path over an earlier one. *)
Lemma writeAll_union docs fs :
  writeAll docs fs = list_to_map (reverse docs) ∪ fs.
Proof.
  revert fs. induction docs as [|[path text] docs IH]; intros fs.
  - simpl. by rewrite (left_id_L ∅ (∪)).
  - change (writeAll ((path, text) :: docs) fs)
      with (writeAll docs (<[path := text]> fs)).
    rewrite IH, reverse_cons, list_to_map_app. simpl.
    rewrite <- (assoc_L (∪)). f_equal.
    by rewrite <- insert_union_l, (left_id_L ∅ (∪)).
Qed.

Lemma writeAll_idemp docs fs :
  writeAll docs (writeAll docs fs) = writeAll docs fs.
Proof.
  rewrite !writeAll_union, (assoc_L (∪)). f_equal. apply (idemp_L (∪)).
Qed.

(** Documents of different paths can be written in any order. *)
Lemma writeAll_Permutation docs1 docs2 fs :
  NoDup docs1.*1 → docs1 ≡ₚ docs2 → writeAll docs1 fs = writeAll docs2 fs.
Proof.
  intros Hnodup Hperm. rewrite !writeAll_union. f_equal.
  apply list_to_map_proper.
  - by rewrite fmap_reverse, reverse_Permutation.
  - by rewrite !reverse_Permutation.
Qed.

(** *** Rendering a list of items *)

Lemma io_range_ext {A} (body1 body2 : A → IO unit) l fs :
  (∀ x fs, body1 x fs = body2 x fs) →
  io_range body1 l fs = io_range body2 l fs.
Proof.
  intros Hbody. revert fs. induction l as [|x l IH]; intros fs; [done|].
  simpl. unfold io_bind. rewrite Hbody.
  by destruct (body2 x fs) as [fs' [[]|e]].
Qed.

Lemma io_range_fmap {A B} (f : A → B) (body : B → IO unit) l fs :
  io_range body (f <$> l) fs = io_range (λ x, body (f x)) l fs.
Proof.
  revert fs. induction l as [|x l IH]; intros fs; [done|].
  csimpl. unfold io_bind.
  by destruct (body (f x) fs) as [fs' [[]|e]].
Qed.

Lemma render_Ok W tmpl item fs :
  renders W tmpl item →
  render W tmpl item fs = (writeAll [docOf W tmpl item] fs, Ok tt).
Proof.
  intros [Hcreate Hexecute]. unfold render, io_bind, Create, Execute.
  rewrite Hcreate. unfold docOf. simpl.
  destruct (template_Execute W tmpl item.2) as [text err].
  simpl in *. subst err. by rewrite insert_insert_eq.
Qed.

Lemma render_succeeded W tmpl item fs :
  succeeded (render W tmpl item fs) = true → renders W tmpl item.
Proof.
  unfold succeeded, renders, render, io_bind, Create, Execute.
  destruct (os_Create W item.1); simpl; [done|].
  by destruct (template_Execute W tmpl item.2) as [text [e|]].
Qed.

Lemma io_range_render_Ok W tmpl items fs :
  Forall (renders W tmpl) items →
  io_range (render W tmpl) items fs
  = (writeAll (docOf W tmpl <$> items) fs, Ok tt).
Proof.
  intros Hitems. revert fs.
  induction Hitems as [|item items Hitem _ IH]; intros fs; [done|].
  simpl. unfold io_bind. rewrite (render_Ok W tmpl item fs Hitem).
  by rewrite IH.
Qed.

Lemma io_range_render_succeeded W tmpl items fs :
  succeeded (io_range (render W tmpl) items fs) = true →
  Forall (renders W tmpl) items.
Proof.
  revert fs. induction items as [|item items IH]; intros fs; [done|].
  simpl. unfold io_bind.
  destruct (render W tmpl item fs) as [fs' [[]|e]] eqn:Hitem; [|done].
  intros Hrest. constructor; [|by eapply IH].
  apply (render_succeeded W tmpl item fs). by rewrite Hitem.
Qed.

(** *** A phase: parse the templates, render the items *)

Lemma runPhase_Ok W names items fs :
  phaseOk W names items →
  runPhase W names items fs = (writeAll (phaseDocs W names items) fs, Ok tt).
Proof.
  intros (tmpl & Hparse & Hitems).
  unfold runPhase, phaseDocs, io_bind, ParseFiles. rewrite Hparse.
  by apply io_range_render_Ok.
Qed.

Lemma runPhase_succeeded W names items fs :
  succeeded (runPhase W names items fs) = true → phaseOk W names items.
Proof.
  unfold runPhase, phaseOk, io_bind, ParseFiles.
  destruct (template_ParseFiles W names) as [tmpl|e]; [|done].
  intros Hitems%io_range_render_succeeded. by exists tmpl.
Qed.

Lemma phaseOk_Permutation W names items1 items2 :
  items1 ≡ₚ items2 → phaseOk W names items1 → phaseOk W names items2.
Proof.
  intros Hperm (tmpl & Hparse & Hitems). exists tmpl. by rewrite <- Hperm.
Qed.

Lemma phaseDocs_Permutation W names items1 items2 :
  items1 ≡ₚ items2 → phaseDocs W names items1 ≡ₚ phaseDocs W names items2.
Proof.
  intros Hperm. unfold phaseDocs.
  destruct (template_ParseFiles W names); [by rewrite Hperm|done].
Qed.

Lemma phaseDocs_paths W names items :
  phaseOk W names items → (phaseDocs W names items).*1 = items.*1.
Proof.
  intros (tmpl & Hparse & _). unfold phaseDocs. rewrite Hparse.
  by rewrite <- list_fmap_compose.
Qed.

(** *** The three generators are phases *)

Lemma generatePosts_phase W posts baseURL fs :
  generatePosts W posts baseURL fs
  = runPhase W postTemplates (postItem <$> posts) fs.
Proof.
  unfold generatePosts, runPhase, io_bind.
  destruct (ParseFiles W _ fs) as [fs' [tmpl|e]]; [|done].
  by rewrite io_range_fmap.
Qed.

Lemma generateIndex_phase W posts baseURL fs :
  generateIndex W posts baseURL fs
  = runPhase W indexTemplates [indexItem posts baseURL] fs.
Proof.
  unfold generateIndex, runPhase, io_bind.
  destruct (ParseFiles W _ fs) as [fs' [tmpl|e]]; [|done].
  simpl. unfold render, io_bind. simpl.
  destruct (Create W "output/index.html" fs') as [fs'' [file|e]]; [|done].
  by destruct (Execute W tmpl file _ fs'') as [fs''' [[]|e]].
Qed.

Lemma generateTags_phase W range posts baseURL fs :
  generateTags W range posts baseURL fs
  = runPhase W tagTemplates
      (tagItem baseURL <$> range (buildTagIndex posts)) fs.
Proof.
  unfold generateTags, runPhase, io_bind.
  destruct (ParseFiles W _ fs) as [fs' [tmpl|e]]; [|done].
  rewrite io_range_fmap. apply io_range_ext. by intros [tag group'] fs''.
Qed.

(** *** The whole composition *)

Lemma compose_Ok W range posts baseURL fs :
  phaseOk W postTemplates (postItem <$> posts) →
  phaseOk W indexTemplates [indexItem posts baseURL] →
  phaseOk W tagTemplates (tagItem baseURL <$> range (buildTagIndex posts)) →
  compose W range posts baseURL fs
  = (writeAll (documents W (range (buildTagIndex posts)) posts baseURL) fs,
     Ok tt).
Proof.
  intros Hposts Hindex Htags. unfold compose, io_bind, documents.
  rewrite generatePosts_phase, (runPhase_Ok _ _ _ _ Hposts).
  rewrite generateIndex_phase, (runPhase_Ok _ _ _ _ Hindex).
  rewrite generateTags_phase, (runPhase_Ok _ _ _ _ Htags).
  by rewrite !writeAll_app.
Qed.

Lemma compose_succeeded W range posts baseURL fs :
  succeeded (compose W range posts baseURL fs) = true →
  phaseOk W postTemplates (postItem <$> posts)
  ∧ phaseOk W indexTemplates [indexItem posts baseURL]
  ∧ phaseOk W tagTemplates (tagItem baseURL <$> range (buildTagIndex posts)).
Proof.
  unfold compose, io_bind.
  destruct (generatePosts W posts baseURL fs) as [fs1 [[]|e]] eqn:Hposts;
    [|done].
  destruct (generateIndex W posts baseURL fs1) as [fs2 [[]|e]] eqn:Hindex;
    [|done].
  intros Htags. split_and!.
  - apply (runPhase_succeeded W _ _ fs).
    by rewrite <- (generatePosts_phase W posts baseURL fs), Hposts.
  - apply (runPhase_succeeded W _ _ fs1).
    by rewrite <- generateIndex_phase, Hindex.
  - apply (runPhase_succeeded W _ _ fs2). by rewrite <- generateTags_phase.
Qed.

Lemma app_inj_r s1 s2 u : s1 +:+ u = s2 +:+ u → s1 = s2.
Proof.
  intros Heq. pose proof (f_equal String.length Heq) as Hlen.
  rewrite !length_app_str in Hlen.
  rewrite <- (slice_to_app s1 u), <- (slice_to_app s2 u), Heq.
  f_equal. lia.
Qed.

Global Instance tagPath_inj : Inj (=) (=) tagPath.
Proof.
  intros tag1 tag2 Heq. unfold tagPath in Heq.
  apply (inj (String.app "output/tag-")) in Heq. by apply app_inj_r in Heq.
Qed.

Lemma tag_documents_NoDup W range posts baseURL :
  RangeOrder range →
  phaseOk W tagTemplates (tagItem baseURL <$> range (buildTagIndex posts)) →
  NoDup (phaseDocs W tagTemplates
           (tagItem baseURL <$> range (buildTagIndex posts))).*1.
Proof.
  intros Hrange Hok. rewrite (phaseDocs_paths _ _ _ Hok).
  rewrite <- list_fmap_compose.
  change (fst ∘ tagItem baseURL)
    with (tagPath ∘ (fst : string * list Post → string)).
  rewrite (list_fmap_compose fst tagPath). apply NoDup_fmap_2; [apply _|].
  rewrite (Hrange (buildTagIndex posts)). apply NoDup_fst_map_to_list.
Qed.

(** The documents do not depend on the order in which the TagIndex is
    visited. *)
Lemma writeAll_documents W range1 range2 posts baseURL fs :
  RangeOrder range1 → RangeOrder range2 →
  phaseOk W tagTemplates (tagItem baseURL <$> range1 (buildTagIndex posts)) →
  writeAll (documents W (range1 (buildTagIndex posts)) posts baseURL) fs
  = writeAll (documents W (range2 (buildTagIndex posts)) posts baseURL) fs.
Proof.
  intros Hrange1 Hrange2 Hok. unfold documents.
  rewrite !(assoc_L (++)), !(writeAll_app (_ ++ _)).
  apply writeAll_Permutation; [by apply tag_documents_NoDup|].
  apply phaseDocs_Permutation, fmap_Permutation.
  by rewrite (Hrange1 _), (Hrange2 _).
Qed.

Lemma index_document W tmpl entries posts baseURL fs :
  template_ParseFiles W indexTemplates = Ok tmpl →
  phaseOk W tagTemplates (tagItem baseURL <$> entries) →
  writeAll (documents W entries posts baseURL) fs !! "output/index.html"
  = Some (template_Execute W tmpl (IndexData posts baseURL)).1.
Proof.
  intros Hparse Htags. unfold documents.
  rewrite (assoc_L (++)), writeAll_app.
  rewrite (writeAll_union (phaseDocs _ _ (_ <$> entries))).
  rewrite lookup_union_r.
  - rewrite writeAll_app. unfold phaseDocs at 1. rewrite Hparse. simpl.
    by rewrite lookup_insert_eq.
  - apply not_elem_of_list_to_map.
    rewrite fmap_reverse, elem_of_reverse, (phaseDocs_paths _ _ _ Htags).
    rewrite <- list_fmap_compose.
    intros ([tag group'] & Hpath & _)%list_elem_of_fmap. done.
Qed.

(** Two runs of the composition on the same posts differ at most in the
    order in which they visit the TagIndex. *)
Lemma compose_deterministic W range1 range2 posts baseURL fs :
  RangeOrder range1 → RangeOrder range2 →
  let run1 := compose W range1 posts baseURL fs in
  let run2 := compose W range2 posts baseURL fs in
  succeeded run1 = succeeded run2 ∧
  (succeeded run1 = true →
   run1 = run2
   ∧ compose W range2 posts baseURL run1.1 = run1
   ∧ ∃ tmpl, template_ParseFiles W indexTemplates = Ok tmpl
       ∧ run1.1 !! "output/index.html"
         = Some (template_Execute W tmpl (IndexData posts baseURL)).1).
Proof.
  intros Hrange1 Hrange2 run1 run2.
  assert (∀ range range',
    RangeOrder range → RangeOrder range' →
    succeeded (compose W range posts baseURL fs) = true →
    ∀ fs', compose W range' posts baseURL fs'
           = (writeAll (documents W (range (buildTagIndex posts))
                          posts baseURL) fs', Ok tt)) as Hany.
  { intros range range' Hrange Hrange' (Hp & Hi & Ht)%compose_succeeded fs'.
    assert (phaseOk W tagTemplates
              (tagItem baseURL <$> range' (buildTagIndex posts))) as Ht'.
    { eapply phaseOk_Permutation; [|done]. apply fmap_Permutation.
      by rewrite (Hrange _), (Hrange' _). }
    rewrite (compose_Ok W range' posts baseURL fs' Hp Hi Ht').
    by rewrite (writeAll_documents W range' range). }
  split.
  - destruct (succeeded run1) eqn:H1, (succeeded run2) eqn:H2; try done.
    + subst run1 run2.
      rewrite (Hany range1 range2 Hrange1 Hrange2 H1 fs) in H2. done.
    + subst run1 run2.
      rewrite (Hany range2 range1 Hrange2 Hrange1 H2 fs) in H1. done.
  - intros H1. subst run1 run2.
    pose proof H1 as (_ & [tmpl [Hparse _]] & Ht)%compose_succeeded.
    rewrite (Hany range1 range1 Hrange1 Hrange1 H1 fs).
    rewrite !(Hany range1 range2 Hrange1 Hrange2 H1). simpl.
    split_and!; [done|by rewrite writeAll_idemp|].
    exists tmpl. split; [done|]. by apply index_document.
Qed.

Lemma main_compose W range fs :
  main W range fs
  = match os_MkdirAll W "output", os_MkdirAll W "content/posts" with
    | Some e, _ | None, Some e => (fs, Fail e)
    | None, None =>
        match readPosts W "content/posts" (os_Getenv W "BASE_URL") with
        | Fail e => (fs, Fail e)
        | Ok posts => compose W range posts (os_Getenv W "BASE_URL") fs
        end
    end.
Proof.
  unfold main, MkdirAll, io_bind, compose.
  destruct (os_MkdirAll W "output"); [done|].
  destruct (os_MkdirAll W "content/posts"); [done|].
  by destruct (readPosts W _ _).
Qed.

(** C7. Two runs of the composition on the same posts, base URL and
    templates, from the same output location, differ at most in the order
    in which they visit the TagIndex. Both end with an error or neither
    does; when they end without one they leave the same output location,
    document for document, and a second run over the output of the first
    changes nothing. The index document is then the text that the index
    templates give on the post collection and the base URL. The same holds
    for [main], which reads the posts before it composes. *)
Theorem generation_deterministic W range1 range2 fs :
  RangeOrder range1 → RangeOrder range2 →
  (∀ posts baseURL,
     let run1 := compose W range1 posts baseURL fs in
     let run2 := compose W range2 posts baseURL fs in
     succeeded run1 = succeeded run2 ∧
     (succeeded run1 = true →
      run1 = run2
      ∧ compose W range2 posts baseURL run1.1 = run1
      ∧ ∃ tmpl, template_ParseFiles W indexTemplates = Ok tmpl
          ∧ run1.1 !! "output/index.html"
            = Some (template_Execute W tmpl (IndexData posts baseURL)).1)) ∧
  (let run1 := main W range1 fs in
   let run2 := main W range2 fs in
   succeeded run1 = succeeded run2 ∧
   (succeeded run1 = true → run1 = run2 ∧ main W range2 run1.1 = run1)).
Proof.
  intros Hrange1 Hrange2. split.
  - intros posts baseURL. by apply compose_deterministic.
  - simpl. rewrite !main_compose.
    destruct (os_MkdirAll W "output"); [done|].
    destruct (os_MkdirAll W "content/posts"); [done|].
    destruct (readPosts W _ _) as [posts|e]; [|done].
    destruct (compose_deterministic W range1 range2 posts
                (os_Getenv W "BASE_URL") fs Hrange1 Hrange2) as [Hsame Hok].
    split; [done|]. intros (? & ? & _)%Hok. done.
Qed.

Lemma generation_deterministic_witness :
  compose sampleWorld map_to_list [helloPost; secondPost] "" ∅
  = compose sampleWorld (λ tags, reverse (map_to_list tags))
      [helloPost; secondPost] "" ∅.
Proof.
  destruct (generation_deterministic sampleWorld map_to_list
              (λ tags, reverse (map_to_list tags)) ∅) as [Hcompose _].
  - intros tags. reflexivity.
  - intros tags. apply reverse_Permutation.
  - apply (Hcompose [helloPost; secondPost] ""). reflexivity.
Defined.

Example compose_sample :
  let outcome := compose sampleWorld map_to_list [helloPost; secondPost]
                   "https://example.org" ∅ in
  outcome.2 = Ok tt
  ∧ dom outcome.1
    = {[ "output/hello-world.html"; "output/second.html";
         "output/index.html"; "output/tag-intro.html";
         "output/tag-test.html" ]}
  ∧ outcome.1 !! "output/tag-test.html" = Some "test:hello-world,second"
  ∧ outcome.1 !! "output/index.html"
    = Some "https://example.org:hello-world,second".
Proof. split_and!; by vm_compute. Qed.

(** * Further properties of the code *)

(** ** The splitter, block by block *)

(** Inside the metadata block every line that is not a delimiter is a line
    of the block. *)
Lemma foldl_scanLine_meta lines fm body n :
  Forall (λ line, isDelimiter line = false) lines →
  foldl scanLine (mkSplitter fm body true n) lines
  = mkSplitter (fm ++ lines) body true n.
Proof.
  intros Hlines. revert fm.
  induction Hlines as [|line lines Hline _ IH]; intros fm; simpl.
  - by rewrite (right_id_L [] (++)).
  - unfold scanLine at 2, collect. rewrite Hline. simpl.
    by rewrite IH, <- (assoc_L (++)).
Qed.

Lemma scanLines_app lines1 lines2 :
  scanLines (lines1 ++ lines2) = foldl scanLine (scanLines lines1) lines2.
Proof. unfold scanLines. by rewrite foldl_app. Qed.

(** The state after the opening delimiter and the lines of the block. *)
Lemma scanLines_open lead opening meta :
  Forall (λ line, isDelimiter line = false) lead →
  isDelimiter opening = true →
  Forall (λ line, isDelimiter line = false) meta →
  scanLines (lead ++ opening :: meta) = mkSplitter meta lead true 1.
Proof.
  intros Hlead Hopening Hmeta. rewrite scanLines_lead by done.
  unfold scanLines. simpl. unfold scanLine at 2. rewrite Hopening. simpl.
  rewrite foldl_scanLine_meta by done.
  unfold withBody. simpl. by rewrite (right_id_L [] (++)).
Qed.

(** X1. A text of the form: lines that are no delimiters, a delimiter, the
    lines of the metadata block (no delimiters), a second delimiter, any
    lines at all, is split into the metadata block and a body made of the
    lines before the block followed by all the lines after it, blank lines
    and further delimiters included; the two delimiters are dropped. *)
Theorem splitter_blocks (lead : list string) (opening : string)
    (meta : list string) (closing : string) (rest : list string) :
  Forall (λ line, isDelimiter line = false) lead →
  isDelimiter opening = true →
  Forall (λ line, isDelimiter line = false) meta →
  isDelimiter closing = true →
  scanLines (lead ++ opening :: meta ++ closing :: rest)
  = mkSplitter meta (lead ++ rest) false (2 + delimiters rest).
Proof.
  intros Hlead Hopening Hmeta Hclosing.
  replace (lead ++ opening :: meta ++ closing :: rest)
    with ((lead ++ opening :: meta) ++ closing :: rest)
    by by rewrite <- (assoc_L (++)).
  rewrite scanLines_app, (scanLines_open lead opening meta) by done.
  simpl. unfold scanLine at 2. rewrite Hclosing. simpl.
  by rewrite foldl_scanLine_body.
Qed.

Lemma splitter_blocks_witness :
  scanLines (["intro"] ++ "---" :: ["title: x"; "date: y"]
               ++ "--- end" :: [""; "body"; "---"; "more"])
  = mkSplitter ["title: x"; "date: y"] ["intro"; ""; "body"; "---"; "more"]
               false 3.
Proof.
  apply (splitter_blocks ["intro"] "---" ["title: x"; "date: y"] "--- end"
           [""; "body"; "---"; "more"]);
    first [reflexivity | by repeat constructor].
Defined.

(** X2. When the metadata block is opened and never closed, every line
    after the opening delimiter is a line of the metadata block, and the
    body is the lines in front of the delimiter: [readPost] then gives the
    decoder the whole rest of the file and renders that body. *)
Theorem splitter_unclosed_block W fileName baseURL
    (lead : list string) (opening : string) (meta : list string) :
  Forall (λ line, isDelimiter line = false) lead →
  isDelimiter opening = true →
  Forall (λ line, isDelimiter line = false) meta →
  os_Open W fileName = Ok (lead ++ opening :: meta) →
  frontmatter (scanLines (lead ++ opening :: meta)) = meta
  ∧ content (scanLines (lead ++ opening :: meta)) = lead
  ∧ readPost W fileName baseURL
    = (try post ← yaml_Unmarshal W (strings.Join meta newline) zeroPost;
       Ok (mkPost (Title post) (Date post) (Tags post)
             (markdown_ToHTML W (strings.Join lead newline))
             (slugOf fileName) baseURL)).
Proof.
  intros Hlead Hopening Hmeta Hopen.
  unfold readPost. rewrite Hopen. simpl.
  by rewrite (scanLines_open lead opening meta).
Qed.

(** X3. The splitter loses no line but the first two delimiters, and
    keeps the order: the metadata block and the body are both read off the
    input from top to bottom, and together with the first two delimiters
    they are exactly the lines of the input. *)
Theorem splitter_keeps_lines (lines : list string) :
  let st := scanLines lines in
  frontmatter st ++ content st
    ++ take 2 (filter (λ line, isDelimiter line = true) lines) ≡ₚ lines
  ∧ sublist (frontmatter st) lines
  ∧ sublist (content st) lines.
Proof.
  simpl. induction lines as [|line lines (IHp & IHf & IHc)] using rev_ind.
  { split_and!; done. }
  destruct (scanLines_mode lines) as [Hcount Hmode].
  rewrite scanLines_snoc, filter_app, filter_cons, filter_nil.
  unfold delimiters in Hcount, Hmode.
  destruct (scanLines lines) as [fm body mode n]. simpl in *. subst n mode.
  assert (∀ kept, kept ≡ₚ lines → ∀ kept', kept' ≡ₚ kept ++ [line] →
          kept' ≡ₚ lines ++ [line]) as Hperm.
  { intros kept Hkept kept' ->. by rewrite Hkept. }
  unfold scanLine, collect.
  destruct (isDelimiter line) eqn:Hline; simpl.
  - destruct (filter _ lines) as [|d1 [|d2 found]]; simpl in *;
      (split_and!;
       [eapply Hperm; [exact IHp|solve_Permutation]
       |first [by apply sublist_app | by apply sublist_inserts_r]..]).
  - rewrite (right_id_L [] (++)).
    destruct (bool_decide (length (filter _ lines) = 1)); simpl;
      (split_and!;
       [eapply Hperm; [exact IHp|solve_Permutation]
       |first [by apply sublist_app | by apply sublist_inserts_r]..]).
Qed.

Lemma splitter_unclosed_block_witness :
  let W := siteWorld [] [("content/posts/open.md", ["---"; "title: x"])]
             (λ _, true) in
  readPost W "content/posts/open.md" ""
  = (try post ← yaml_Unmarshal W (strings.Join ["title: x"] newline) zeroPost;
     Ok (mkPost (Title post) (Date post) (Tags post)
           (markdown_ToHTML W (strings.Join [] newline))
           (slugOf "content/posts/open.md") "")).
Proof.
  apply (splitter_unclosed_block
           (siteWorld [] [("content/posts/open.md", ["---"; "title: x"])]
              (λ _, true))
           "content/posts/open.md" "" [] "---" ["title: x"]);
    first [reflexivity | by repeat constructor].
Defined.

(** ** The posts of a directory *)

Lemma readPost_BaseURL W fileName baseURL post :
  readPost W fileName baseURL = Ok post → BaseURL post = baseURL.
Proof.
  unfold readPost. destruct (os_Open W fileName); simpl; [|done].
  destruct (yaml_Unmarshal W _ zeroPost); simpl; [|done]. by intros [= <-].
Qed.

Lemma NoDup_filter_fmap {A B} (f : A → B) (P : A → Prop)
    `{!∀ x, Decision (P x)} l :
  NoDup (f <$> l) → NoDup (f <$> filter P l).
Proof.
  induction l as [|x l IH]; [done|]. csimpl.
  intros [Hx Hl]%NoDup_cons. rewrite filter_cons.
  destruct (decide (P x)); [|by apply IH]. csimpl.
  apply NoDup_cons. split; [|by apply IH].
  intros (y & Hy & [_ Hin]%list_elem_of_filter)%list_elem_of_fmap.
  apply Hx, list_elem_of_fmap. by exists y.
Qed.

(** X4. The entries of a directory have different names, so the posts
    that [readPosts] returns for the content directory have different
    slugs; there is one post for each selected entry, and every post
    carries the base URL that [readPosts] was given. *)
Theorem readPosts_slugs_differ W baseURL files posts :
  os_ReadDir W "content/posts" = Ok files →
  NoDup (Name <$> files) →
  readPosts W "content/posts" baseURL = Ok posts →
  NoDup (Slug <$> posts)
  ∧ length posts = length (filter (λ file, selected file = true) files)
  ∧ Forall (λ post, BaseURL post = baseURL) posts.
Proof.
  intros Hdir Hnames Hread.
  pose proof (sourceName_readPosts W baseURL files posts Hdir Hread) as Hsrc.
  split_and!.
  - apply (NoDup_fmap_1 (λ slug, slug +:+ ".md")).
    rewrite <- list_fmap_compose.
    change ((λ slug, slug +:+ ".md") ∘ Slug) with sourceName.
    rewrite Hsrc. by apply NoDup_filter_fmap.
  - by rewrite <- (length_fmap sourceName), Hsrc, length_fmap.
  - rewrite readPosts_traverse, Hdir in Hread. simpl in Hread.
    apply traverse_Ok in Hread.
    clear Hsrc.
    induction Hread as [|file post entries posts' Hpost _ IH];
      [constructor|constructor; [|done]].
    by apply readPost_BaseURL in Hpost.
Qed.

Lemma readPosts_slugs_differ_witness :
  NoDup (Slug <$>
    [mkPost "" "" [] "<p>just text
more text</p>" "a-post" "https://example.org";
     mkPost "Hello World" "2024-01-01" ["intro"; "test"] "<p>
# Hi</p>" "hello-world" "https://example.org"]).
Proof.
  eapply (readPosts_slugs_differ sampleWorld "https://example.org").
  - reflexivity.
  - by apply (bool_decide_unpack _).
  - reflexivity.
Defined.

(** ** What a run writes, and what it leaves alone *)

Lemma writeAll_lookup_other docs fs path :
  path ∉ docs.*1 → writeAll docs fs !! path = fs !! path.
Proof.
  intros Hpath. rewrite writeAll_union, lookup_union_r; [done|].
  apply not_elem_of_list_to_map. by rewrite fmap_reverse, elem_of_reverse.
Qed.

Lemma writeAll_lookup docs fs path text :
  NoDup docs.*1 → (path, text) ∈ docs → writeAll docs fs !! path = Some text.
Proof.
  intros Hnodup Hdoc. rewrite writeAll_union.
  apply lookup_union_Some_l, elem_of_list_to_map_1.
  - by rewrite fmap_reverse, reverse_Permutation.
  - by rewrite elem_of_reverse.
Qed.

(** Rendering an item writes the file of the item and no other, whether
    it ends with an error or not. *)
Lemma render_lookup_other W tmpl item fs path :
  path ≠ item.1 → (render W tmpl item fs).1 !! path = fs !! path.
Proof.
  intros Hpath. unfold render, io_bind, Create, Execute.
  destruct (os_Create W item.1); simpl; [done|].
  destruct (template_Execute W tmpl item.2) as [text err]. simpl.
  by rewrite !lookup_insert_ne.
Qed.

Lemma render_lookup_is_Some W tmpl item fs path :
  is_Some (fs !! path) → is_Some ((render W tmpl item fs).1 !! path).
Proof.
  intros Hpath. unfold render, io_bind, Create, Execute.
  destruct (os_Create W item.1); simpl; [done|].
  destruct (template_Execute W tmpl item.2) as [text err]. simpl.
  rewrite !lookup_insert_is_Some'. auto.
Qed.

Lemma io_range_render_lookup_other W tmpl items fs path :
  path ∉ items.*1 →
  (io_range (render W tmpl) items fs).1 !! path = fs !! path.
Proof.
  revert fs. induction items as [|item items IH]; intros fs Hpath; [done|].
  apply not_elem_of_cons in Hpath as [Hitem Hitems].
  simpl. unfold io_bind.
  pose proof (render_lookup_other W tmpl item fs path Hitem) as Hone.
  destruct (render W tmpl item fs) as [fs' [[]|e]]; simpl in *; [|done].
  by rewrite IH.
Qed.

Lemma io_range_render_lookup_is_Some W tmpl items fs path :
  is_Some (fs !! path) →
  is_Some ((io_range (render W tmpl) items fs).1 !! path).
Proof.
  revert fs. induction items as [|item items IH]; intros fs Hpath; [done|].
  simpl. unfold io_bind.
  pose proof (render_lookup_is_Some W tmpl item fs path Hpath) as Hone.
  destruct (render W tmpl item fs) as [fs' [[]|e]]; simpl in *; [|done].
  by apply IH.
Qed.

Lemma runPhase_lookup_other W names items fs path :
  path ∉ items.*1 → (runPhase W names items fs).1 !! path = fs !! path.
Proof.
  intros Hpath. unfold runPhase, io_bind, ParseFiles.
  destruct (template_ParseFiles W names); [|done].
  by apply io_range_render_lookup_other.
Qed.

Lemma runPhase_lookup_is_Some W names items fs path :
  is_Some (fs !! path) → is_Some ((runPhase W names items fs).1 !! path).
Proof.
  intros Hpath. unfold runPhase, io_bind, ParseFiles.
  destruct (template_ParseFiles W names); [|done].
  by apply io_range_render_lookup_is_Some.
Qed.

(** A composition is its three phases, one after the other. *)
Lemma compose_phases W range posts baseURL fs :
  compose W range posts baseURL fs
  = match runPhase W postTemplates (postItem <$> posts) fs with
    | (fs1, Ok _) =>
        match runPhase W indexTemplates [indexItem posts baseURL] fs1 with
        | (fs2, Ok _) =>
            runPhase W tagTemplates
              (tagItem baseURL <$> range (buildTagIndex posts)) fs2
        | (fs2, Fail e) => (fs2, Fail e)
        end
    | (fs1, Fail e) => (fs1, Fail e)
    end.
Proof.
  unfold compose, io_bind. rewrite generatePosts_phase.
  destruct (runPhase W postTemplates _ fs) as [fs1 [[]|e]]; [|done].
  rewrite generateIndex_phase.
  destruct (runPhase W indexTemplates _ fs1) as [fs2 [[]|e]]; [|done].
  apply generateTags_phase.
Qed.

(** A path that no phase renders is left as it was. *)
Lemma compose_lookup_other W range posts baseURL fs path :
  path ∉ (postItem <$> posts).*1 →
  path ≠ "output/index.html" →
  path ∉ (tagItem baseURL <$> range (buildTagIndex posts)).*1 →
  (compose W range posts baseURL fs).1 !! path = fs !! path.
Proof.
  intros Hposts Hindex Htags. rewrite compose_phases.
  pose proof (runPhase_lookup_other W postTemplates _ fs path Hposts) as H1.
  destruct (runPhase W postTemplates _ fs) as [fs1 [[]|e]]; simpl in H1;
    [|done].
  assert (path ∉ [indexItem posts baseURL].*1) as Hindex'
    by (by intros ->%list_elem_of_singleton).
  pose proof (runPhase_lookup_other W indexTemplates _ fs1 path Hindex')
    as H2.
  destruct (runPhase W indexTemplates _ fs1) as [fs2 [[]|e]]; simpl in H2;
    [|simpl; congruence].
  rewrite (runPhase_lookup_other W tagTemplates _ fs2 path Htags). congruence.
Qed.

Lemma compose_lookup_is_Some W range posts baseURL fs path :
  is_Some (fs !! path) →
  is_Some ((compose W range posts baseURL fs).1 !! path).
Proof.
  intros Hpath. rewrite compose_phases.
  pose proof (runPhase_lookup_is_Some W postTemplates
                (postItem <$> posts) fs path Hpath) as H1.
  destruct (runPhase W postTemplates _ fs) as [fs1 [[]|e]]; simpl in H1;
    [|done].
  pose proof (runPhase_lookup_is_Some W indexTemplates
                [indexItem posts baseURL] fs1 path H1) as H2.
  destruct (runPhase W indexTemplates _ fs1) as [fs2 [[]|e]]; simpl in H2;
    [|done].
  by apply runPhase_lookup_is_Some.
Qed.

Lemma elem_of_tag_paths range posts baseURL path :
  RangeOrder range →
  path ∈ (tagItem baseURL <$> range (buildTagIndex posts)).*1
  ↔ ∃ tag, is_Some (buildTagIndex posts !! tag) ∧ path = tagPath tag.
Proof.
  intros Hrange. rewrite <- list_fmap_compose, list_elem_of_fmap. split.
  - intros ([tag group'] & -> & Hin). exists tag. split; [|done].
    rewrite (Hrange _) in Hin. apply elem_of_map_to_list in Hin. by exists group'.
  - intros (tag & [group' Htag] & ->). exists (tag, group'). split; [done|].
    rewrite (Hrange _). by apply elem_of_map_to_list.
Qed.

(** X5. A run of the composition, whether it ends with an error or not,
    removes no file, and it leaves every file as it was but the documents
    of the posts, the index document and the documents of the tags that
    some post carries. *)
Theorem compose_touches_documents_only W range posts baseURL fs :
  RangeOrder range →
  let fs' := (compose W range posts baseURL fs).1 in
  (∀ path, is_Some (fs !! path) → is_Some (fs' !! path)) ∧
  (∀ path,
     (∀ post, post ∈ posts → path ≠ postPath post) →
     path ≠ "output/index.html" →
     (∀ tag, is_Some (buildTagIndex posts !! tag) → path ≠ tagPath tag) →
     fs' !! path = fs !! path).
Proof.
  intros Hrange. simpl. split.
  - intros path. apply compose_lookup_is_Some.
  - intros path Hposts Hindex Htags. apply compose_lookup_other; [|done|].
    + rewrite <- list_fmap_compose.
      intros (post & -> & Hpost)%list_elem_of_fmap. by apply (Hposts post).
    + intros (tag & Htag & ->)%elem_of_tag_paths; [|done].
      by apply (Htags tag).
Qed.

Lemma compose_touches_documents_only_witness :
  let fs : FS := {[ "output/old.html" := "stale";
                    "content/posts/hello-world.md" := "source" ]} in
  let fs' := (compose sampleWorld map_to_list [helloPost; secondPost] "" fs).1
  in
  fs' !! "output/old.html" = Some "stale"
  ∧ fs' !! "content/posts/hello-world.md" = Some "source".
Proof.
  destruct (compose_touches_documents_only sampleWorld map_to_list
              [helloPost; secondPost] ""
              {[ "output/old.html" := "stale";
                 "content/posts/hello-world.md" := "source" ]})
    as [_ Hother]; [by intros tags|].
  split.
  - rewrite (Hother "output/old.html"); [reflexivity| |discriminate|].
    + intros post [->|[->|[]%elem_of_nil]%elem_of_cons]%elem_of_cons;
        discriminate.
    + by intros tag _.
  - rewrite (Hother "content/posts/hello-world.md");
      [reflexivity| |discriminate|].
    + by intros post _.
    + by intros tag _.
Defined.

Lemma HasPrefix_postPath post :
  strings.HasPrefix (postPath post) "output/" = true.
Proof. apply HasPrefix_app. Qed.

Lemma HasPrefix_tagPath tag :
  strings.HasPrefix (tagPath tag) "output/" = true.
Proof. apply (HasPrefix_app "output/" ("tag-" +:+ tag +:+ ".html")). Qed.

(** X6. [main] writes below [output/] only: a file whose path does not
    begin with [output/], a post file among them, is after the run what it
    was before, however the run ends. *)
Theorem main_writes_below_output W range fs path :
  strings.HasPrefix path "output/" = false →
  (main W range fs).1 !! path = fs !! path.
Proof.
  intros Hpath. rewrite main_compose.
  destruct (os_MkdirAll W "output"); [done|].
  destruct (os_MkdirAll W "content/posts"); [done|].
  destruct (readPosts W _ _) as [posts|e]; [|done].
  apply compose_lookup_other.
  - rewrite <- list_fmap_compose.
    intros (post & -> & _)%list_elem_of_fmap.
    simpl in Hpath. by rewrite HasPrefix_postPath in Hpath.
  - by intros ->.
  - rewrite <- list_fmap_compose.
    intros ([tag group'] & -> & _)%list_elem_of_fmap.
    simpl in Hpath. by rewrite HasPrefix_tagPath in Hpath.
Qed.

Lemma main_writes_below_output_witness :
  (main sampleWorld map_to_list
     {[ "content/posts/hello-world.md" := "source" ]}).1
    !! "content/posts/hello-world.md"
  = ({[ "content/posts/hello-world.md" := "source" ]} : FS)
      !! "content/posts/hello-world.md".
Proof.
  apply (main_writes_below_output sampleWorld map_to_list
           {[ "content/posts/hello-world.md" := "source" ]}
           "content/posts/hello-world.md").
  reflexivity.
Defined.

(** ** The documents of a run that ends without an error *)

Lemma phaseDocs_documentText W names items :
  phaseOk W names items →
  phaseDocs W names items
  = (λ item, (item.1, documentText W names item.2)) <$> items.
Proof.
  intros (tmpl & Hparse & _). unfold phaseDocs, documentText.
  by rewrite Hparse.
Qed.

Global Instance postPath_slug_inj :
  Inj (=) (=) (λ slug, "output/" +:+ slug +:+ ".html").
Proof.
  intros slug1 slug2 Heq.
  apply (inj (String.app "output/")) in Heq. by apply app_inj_r in Heq.
Qed.

(** The output location after a run without an error, phase by phase. *)
Lemma compose_output W range posts baseURL fs :
  succeeded (compose W range posts baseURL fs) = true →
  (compose W range posts baseURL fs).1
  = writeAll (phaseDocs W tagTemplates
                (tagItem baseURL <$> range (buildTagIndex posts)))
      (writeAll (phaseDocs W indexTemplates [indexItem posts baseURL])
         (writeAll (phaseDocs W postTemplates (postItem <$> posts)) fs)).
Proof.
  intros (Hp & Hi & Ht)%compose_succeeded.
  rewrite (compose_Ok W range posts baseURL fs Hp Hi Ht). simpl.
  unfold documents. by rewrite !writeAll_app.
Qed.

Lemma compose_lookup_tag W range posts baseURL fs tag group' :
  RangeOrder range →
  succeeded (compose W range posts baseURL fs) = true →
  buildTagIndex posts !! tag = Some group' →
  (compose W range posts baseURL fs).1 !! tagPath tag
  = Some (documentText W tagTemplates (TagData tag group' baseURL)).
Proof.
  intros Hrange Hok Htag. rewrite compose_output by done.
  apply compose_succeeded in Hok as (_ & _ & Ht).
  apply writeAll_lookup; [by apply tag_documents_NoDup|].
  rewrite (phaseDocs_documentText _ _ _ Ht).
  apply list_elem_of_fmap. exists (tagItem baseURL (tag, group')).
  split; [done|]. apply list_elem_of_fmap. exists (tag, group').
  split; [done|]. rewrite (Hrange _). by apply elem_of_map_to_list.
Qed.

Lemma compose_lookup_index W range posts baseURL fs :
  RangeOrder range →
  succeeded (compose W range posts baseURL fs) = true →
  (compose W range posts baseURL fs).1 !! "output/index.html"
  = Some (documentText W indexTemplates (IndexData posts baseURL)).
Proof.
  intros Hrange Hok. rewrite compose_output by done.
  apply compose_succeeded in Hok as (_ & Hi & Ht).
  rewrite writeAll_lookup_other.
  - rewrite (phaseDocs_documentText _ _ _ Hi). simpl.
    by rewrite lookup_insert_eq.
  - rewrite (phaseDocs_paths _ _ _ Ht).
    intros (tag & _ & Hpath)%elem_of_tag_paths; done.
Qed.

(** ** The order of the posts in the documents *)

(** C10. [os.ReadDir] returns the entries of the directory sorted by file
    name. The posts that [readPosts] then returns for the content
    directory are the selected entries in that order: the names of their
    source files are in lexicographic order, and so are those of every
    group of the TagIndex. [generateIndex] executes the index templates on
    this very collection, in this order, and so does a run of [main] that
    ends without an error: its index document is the text of the index
    templates on the posts in the order of their file names, and the
    document of every tag is the text of the tag templates on a group
    that is in that order. *)
Theorem readPosts_in_file_name_order W baseURL files posts :
  os_ReadDir W "content/posts" = Ok files →
  Sorted byName files →
  readPosts W "content/posts" baseURL = Ok posts →
  sourceName <$> posts = Name <$> filter (λ file, selected file = true) files
  ∧ StronglySorted String.le (sourceName <$> posts)
  ∧ (∀ tag,
       StronglySorted String.le
         (sourceName <$> group (buildTagIndex posts) tag))
  ∧ (∀ fs,
       succeeded (generateIndex W posts baseURL fs) = true →
       (generateIndex W posts baseURL fs).1 !! "output/index.html"
       = Some (documentText W indexTemplates (IndexData posts baseURL)))
  ∧ (∀ range fs,
       RangeOrder range →
       baseURL = os_Getenv W "BASE_URL" →
       succeeded (main W range fs) = true →
       (main W range fs).1 !! "output/index.html"
       = Some (documentText W indexTemplates (IndexData posts baseURL))
       ∧ ∀ tag posts',
           buildTagIndex posts !! tag = Some posts' →
           StronglySorted String.le (sourceName <$> posts')
           ∧ (main W range fs).1 !! tagPath tag
             = Some (documentText W tagTemplates
                       (TagData tag posts' baseURL))).
Proof.
  intros Hdir Hsorted Hread.
  pose proof (sourceName_readPosts W baseURL files posts Hdir Hread) as Hnames.
  assert (StronglySorted String.le (sourceName <$> posts)) as Hposts.
  { rewrite Hnames.
    apply (StronglySorted_fmap Name byName); [done|].
    apply StronglySorted_filter.
    by apply (sorting.Sorted_StronglySorted byName). }
  assert (∀ tag,
            StronglySorted String.le
              (sourceName <$> group (buildTagIndex posts) tag)) as Hgroups.
  { intros tag. rewrite group_buildTagIndex.
    apply (StronglySorted_fmap sourceName
             (λ post1 post2, String.le (sourceName post1) (sourceName post2)));
      [done|].
    assert (Reflexive (λ post1 post2 : Post,
              String.le (sourceName post1) (sourceName post2))) as Hrefl
      by (intros post; apply reflexivity).
    apply (StronglySorted_bind_replicate _ _ posts).
    by apply StronglySorted_fmap_inv. }
  split_and!; [done..| |].
  - intros fs. rewrite generateIndex_phase.
    intros Hok%runPhase_succeeded.
    rewrite (runPhase_Ok _ _ _ fs Hok), (phaseDocs_documentText _ _ _ Hok).
    simpl. by rewrite lookup_insert_eq.
  - intros range fs Hrange HbaseURL. rewrite main_compose.
    destruct (os_MkdirAll W "output"); [done|].
    destruct (os_MkdirAll W "content/posts"); [done|].
    rewrite <- HbaseURL, Hread. intros Hok. split.
    + by apply compose_lookup_index.
    + intros tag posts' Htag. split.
      * specialize (Hgroups tag). unfold group in Hgroups.
        by rewrite Htag in Hgroups.
      * by apply compose_lookup_tag.
Qed.

Lemma readPosts_in_file_name_order_witness :
  let posts :=
    [mkPost "" "" [] "<p>just text
more text</p>" "a-post" "https://example.org";
     mkPost "Hello World" "2024-01-01" ["intro"; "test"] "<p>
# Hi</p>" "hello-world" "https://example.org"] in
  StronglySorted String.le (sourceName <$> posts)
  ∧ (main sampleWorld map_to_list ∅).1 !! "output/index.html"
    = Some (documentText sampleWorld indexTemplates
              (IndexData posts "https://example.org")).
Proof.
  intros posts.
  destruct (readPosts_in_file_name_order sampleWorld "https://example.org"
              [mkDirEntry "a-post.md" false; mkDirEntry "drafts" true;
               mkDirEntry "hello-world.md" false;
               mkDirEntry "notes.txt" false] posts)
    as (_ & Hposts & _ & _ & Hmain).
  - reflexivity.
  - repeat constructor.
  - reflexivity.
  - split; [exact Hposts|].
    assert (RangeOrder map_to_list) as Hrange
      by (intros tags; reflexivity).
    assert (succeeded (main sampleWorld map_to_list ∅) = true) as Hok
      by (vm_compute; reflexivity).
    exact (proj1 (Hmain map_to_list ∅ Hrange eq_refl Hok)).
Defined.

(** X7. After a run that ends without an error every tag that some post
    carries has its document: the file [output/tag-<tag>.html] holds the
    text of the tag templates on the tag, its group of the TagIndex and
    the base URL, whatever else the run wrote. *)
Theorem tag_documents_written W range posts baseURL fs tag posts' :
  RangeOrder range →
  succeeded (compose W range posts baseURL fs) = true →
  buildTagIndex posts !! tag = Some posts' →
  (compose W range posts baseURL fs).1 !! tagPath tag
  = Some (documentText W tagTemplates (TagData tag posts' baseURL)).
Proof. apply compose_lookup_tag. Qed.

Lemma tag_documents_written_witness :
  (compose sampleWorld map_to_list [helloPost; secondPost] "" ∅).1
    !! tagPath "test"
  = Some (documentText sampleWorld tagTemplates
            (TagData "test" [helloPost; secondPost] "")).
Proof.
  apply (tag_documents_written sampleWorld map_to_list
           [helloPost; secondPost] "" ∅ "test" [helloPost; secondPost]).
  - by intros tags.
  - reflexivity.
  - reflexivity.
Defined.

(** X8. After a run that ends without an error on posts with different
    slugs, the document of a post holds the text of the post templates on
    that post, unless the slug is [index] or [tag-<tag>] for a tag that
    some post carries: the documents are written posts first, then the
    index, then the tags, so the file of such a post holds the index
    document or the document of the tag. *)
Theorem post_documents_written W range posts baseURL fs post :
  RangeOrder range →
  succeeded (compose W range posts baseURL fs) = true →
  NoDup (Slug <$> posts) →
  post ∈ posts →
  let fs' := (compose W range posts baseURL fs).1 in
  (Slug post ≠ "index" →
   (∀ tag, is_Some (buildTagIndex posts !! tag) →
           Slug post ≠ "tag-" +:+ tag) →
   fs' !! postPath post
   = Some (documentText W postTemplates (PostData post))) ∧
  (Slug post = "index" →
   fs' !! postPath post
   = Some (documentText W indexTemplates (IndexData posts baseURL))) ∧
  (∀ tag posts',
     Slug post = "tag-" +:+ tag →
     buildTagIndex posts !! tag = Some posts' →
     fs' !! postPath post
     = Some (documentText W tagTemplates (TagData tag posts' baseURL))).
Proof.
  intros Hrange Hok Hslugs Hpost. simpl. split_and!.
  - intros Hindex Htags. rewrite compose_output by done.
    apply compose_succeeded in Hok as (Hp & Hi & Ht).
    rewrite writeAll_lookup_other; [rewrite writeAll_lookup_other|].
    + apply writeAll_lookup.
      * rewrite (phaseDocs_paths _ _ _ Hp), <- list_fmap_compose.
        change (fst ∘ postItem)
          with ((λ slug, "output/" +:+ slug +:+ ".html") ∘ Slug).
        rewrite list_fmap_compose. by apply NoDup_fmap_2; [apply _|].
      * rewrite (phaseDocs_documentText _ _ _ Hp).
        apply list_elem_of_fmap. exists (postItem post).
        split; [done|]. by apply list_elem_of_fmap_2.
    + rewrite (phaseDocs_paths _ _ _ Hi).
      intros Heq%list_elem_of_singleton. simpl in Heq.
      apply Hindex.
      by apply (postPath_slug_inj (Slug post) "index").
    + rewrite (phaseDocs_paths _ _ _ Ht).
      intros (tag & Htag & Heq)%elem_of_tag_paths; [|done].
      apply (Htags tag Htag).
      by apply (postPath_slug_inj (Slug post) ("tag-" +:+ tag)).
  - intros Hindex.
    replace (postPath post) with "output/index.html"
      by (unfold postPath; by rewrite Hindex).
    by apply compose_lookup_index.
  - intros tag posts' Hslug Htag.
    replace (postPath post) with (tagPath tag)
      by (unfold postPath; by rewrite Hslug).
    by apply compose_lookup_tag.
Qed.

Lemma post_documents_written_witness :
  (compose sampleWorld map_to_list [helloPost; secondPost] "" ∅).1
    !! postPath helloPost
  = Some (documentText sampleWorld postTemplates (PostData helloPost)).
Proof.
  apply (post_documents_written sampleWorld map_to_list
           [helloPost; secondPost] "" ∅ helloPost).
  - by intros tags.
  - reflexivity.
  - by apply (bool_decide_unpack _).
  - left.
  - discriminate.
  - intros tag _. discriminate.
Defined.

(** ** A content directory without posts *)

Lemma filter_selected_nil files :
  Forall (λ file, selected file = false) files →
  filter (λ file, selected file = true) files = [].
Proof.
  induction 1 as [|file files Hfile _ IH]; [done|].
  rewrite filter_cons, IH. rewrite decide_False; [done|]. by rewrite Hfile.
Qed.

(** X9. When the content directory holds no post (it is empty, or holds
    only directories and files whose name does not end in [.md]), [main]
    opens no file and, provided the templates of all three kinds are
    parsed and the index is rendered, ends without an error having
    written the index document, on the empty collection, and nothing
    else. *)
Theorem main_without_posts W range fs files :
  RangeOrder range →
  os_MkdirAll W "output" = None →
  os_MkdirAll W "content/posts" = None →
  os_ReadDir W "content/posts" = Ok files →
  Forall (λ file, selected file = false) files →
  is_Ok (template_ParseFiles W postTemplates) = true →
  is_Ok (template_ParseFiles W tagTemplates) = true →
  phaseOk W indexTemplates [indexItem [] (os_Getenv W "BASE_URL")] →
  readPosts W "content/posts" (os_Getenv W "BASE_URL") = Ok []
  ∧ main W range fs
    = (<["output/index.html" :=
           documentText W indexTemplates
             (IndexData [] (os_Getenv W "BASE_URL"))]> fs,
       Ok tt).
Proof.
  intros Hrange Hout Hcontent Hdir Hfiles Hposts Htags Hindex.
  assert (readPosts W "content/posts" (os_Getenv W "BASE_URL") = Ok [])
    as Hread.
  { rewrite readPosts_traverse, Hdir. simpl.
    by rewrite filter_selected_nil. }
  split; [done|].
  rewrite main_compose, Hout, Hcontent, Hread.
  assert (range (buildTagIndex []) = []) as Hnone.
  { apply Permutation_nil_r. rewrite (Hrange _).
    unfold buildTagIndex. simpl. by rewrite map_to_list_empty. }
  rewrite compose_Ok.
  - unfold documents. rewrite Hnone.
    rewrite (phaseDocs_documentText _ _ _ Hindex).
    unfold phaseDocs.
    destruct (template_ParseFiles W postTemplates); [|done].
    by destruct (template_ParseFiles W tagTemplates).
  - destruct (template_ParseFiles W postTemplates) as [tmpl|] eqn:Hparse;
      [|done].
    exists tmpl. split; [done|]. constructor.
  - done.
  - rewrite Hnone.
    destruct (template_ParseFiles W tagTemplates) as [tmpl|] eqn:Hparse;
      [|done].
    exists tmpl. split; [done|]. constructor.
Qed.

Lemma main_without_posts_witness :
  let W := siteWorld [mkDirEntry "drafts" true; mkDirEntry "notes.txt" false]
             [] (λ _, true) in
  main W map_to_list ∅
  = (<["output/index.html" :=
         documentText W indexTemplates
           (IndexData [] (os_Getenv W "BASE_URL"))]> ∅,
     Ok tt).
Proof.
  eapply (main_without_posts
            (siteWorld [mkDirEntry "drafts" true; mkDirEntry "notes.txt" false]
               [] (λ _, true)) map_to_list ∅).
  - by intros tags.
  - reflexivity.
  - reflexivity.
  - reflexivity.
  - by repeat constructor.
  - reflexivity.
  - reflexivity.
  - eexists. split; [reflexivity|]. by repeat constructor.
Defined.

(** ** Cutting a text into lines and joining them again *)

Lemma Join_cons line lines sep :
  lines ≠ [] →
  strings.Join (line :: lines) sep = line +:+ sep +:+ strings.Join lines sep.
Proof. by destruct lines. Qed.

Lemma Join_SplitLines text : strings.Join (SplitLines text) newline = text.
Proof.
  induction text as [|c text IH]; [done|]. simpl.
  destruct (Ascii.eqb c (ascii_of_nat 10)) eqn:Hc.
  - apply Ascii.eqb_eq in Hc as ->.
    rewrite Join_cons by apply SplitLines_nonempty. by rewrite IH.
  - destruct (SplitLines text) as [|line lines] eqn:Htext.
    { by apply SplitLines_nonempty in Htext. }
    destruct lines as [|line' lines]; simpl in *; by rewrite <- IH.
Qed.

Lemma singleLine_SplitLines text : Forall singleLine (SplitLines text).
Proof.
  induction text as [|c text IH]; [by repeat constructor|]. simpl.
  destruct (Ascii.eqb c (ascii_of_nat 10)) eqn:Hc.
  - by constructor.
  - destruct (SplitLines text) as [|line lines] eqn:Htext.
    { by apply SplitLines_nonempty in Htext. }
    apply Forall_cons in IH as [Hline Hlines]. constructor; [|done].
    unfold singleLine in *. simpl. by rewrite Hc, Hline.
Qed.

Lemma SplitLines_Join lines :
  lines ≠ [] → Forall singleLine lines →
  SplitLines (strings.Join lines newline) = lines.
Proof.
  intros Hne Hlines.
  induction Hlines as [|line lines Hline Hlines IH]; [done|].
  destruct lines as [|line' lines]; [done|].
  rewrite Join_cons, SplitLines_app by done. by rewrite IH.
Qed.

(** ** The [update] command *)

Section update.
Variables title content tags : string.

Lemma updateRange_newLines lines newLines inFrontmatter :
  (updateRange title content tags lines newLines inFrontmatter).1
  = newLines ++ updated title content tags lines inFrontmatter.
Proof.
  unfold updated. revert newLines inFrontmatter.
  induction lines as [|line lines IH]; intros newLines inFrontmatter; simpl.
  - by rewrite (right_id_L [] (++)).
  - destruct (strings.HasPrefix line "---").
    { rewrite (IH (newLines ++ _)), (IH [line]).
      by rewrite <- (assoc_L (++)). }
    destruct inFrontmatter.
    { rewrite (IH (newLines ++ _)), (IH [_]).
      by rewrite <- (assoc_L (++)). }
    destruct (negb (bool_decide (content = ""))); [done|].
    rewrite (IH (newLines ++ _)), (IH [line]).
    by rewrite <- (assoc_L (++)).
Qed.

(** The loop, one line at a time. *)
Lemma updated_cons line lines inFrontmatter :
  updated title content tags (line :: lines) inFrontmatter
  = if isDelimiter line then
      line :: updated title content tags lines (negb inFrontmatter)
    else if inFrontmatter then
      updateLine title tags line :: updated title content tags lines true
    else if negb (bool_decide (content = "")) then [content]
    else line :: updated title content tags lines false.
Proof.
  unfold updated at 1. simpl. unfold isDelimiter.
  destruct (strings.HasPrefix line "---");
    [by rewrite updateRange_newLines|].
  destruct inFrontmatter; [by rewrite updateRange_newLines|].
  destruct (negb (bool_decide (content = ""))); [done|].
  by rewrite updateRange_newLines.
Qed.

Lemma updated_nonempty line lines inFrontmatter :
  updated title content tags (line :: lines) inFrontmatter ≠ [].
Proof. rewrite updated_cons. by repeat case_match. Qed.

Lemma updateLine_not_delimiter line :
  isDelimiter line = false → isDelimiter (updateLine title tags line) = false.
Proof. intros Hline. unfold updateLine. by repeat case_match. Qed.

Lemma updateLine_idemp line :
  updateLine title tags (updateLine title tags line)
  = updateLine title tags line.
Proof.
  unfold updateLine.
  destruct (strings.HasPrefix line "title:"
            && negb (bool_decide (title = ""))) eqn:Htitle.
  { apply andb_true_iff in Htitle as [_ ->]. done. }
  destruct (strings.HasPrefix line "tags:"
            && negb (bool_decide (tags = ""))) eqn:Htags.
  { apply andb_true_iff in Htags as [_ ->].
    by destruct (negb (bool_decide (title = ""))). }
  by rewrite Htitle, Htags.
Qed.

Lemma updated_idemp lines inFrontmatter :
  updated title content tags
    (updated title content tags lines inFrontmatter) inFrontmatter
  = updated title content tags lines inFrontmatter.
Proof.
  revert inFrontmatter.
  induction lines as [|line lines IH]; intros inFrontmatter; [done|].
  rewrite (updated_cons line lines).
  destruct (isDelimiter line) eqn:Hline.
  { by rewrite updated_cons, Hline, IH. }
  destruct inFrontmatter.
  { by rewrite updated_cons, updateLine_not_delimiter, updateLine_idemp, IH. }
  destruct (negb (bool_decide (content = ""))) eqn:Hcontent.
  - rewrite updated_cons, Hcontent. by destruct (isDelimiter content).
  - by rewrite updated_cons, Hline, Hcontent, IH.
Qed.

Lemma singleLine_updateLine line :
  singleLine title → singleLine tags → singleLine line →
  singleLine (updateLine title tags line).
Proof.
  intros Htitle Htags Hline. unfold updateLine. repeat case_match; [| |done].
  - by apply (singleLine_app "title: ").
  - apply (singleLine_app "tags: ["); [done|]. by apply singleLine_app.
Qed.

Lemma singleLine_updated lines inFrontmatter :
  singleLine title → singleLine tags → singleLine content →
  Forall singleLine lines →
  Forall singleLine (updated title content tags lines inFrontmatter).
Proof.
  intros Htitle Htags Hcontent Hlines. revert inFrontmatter.
  induction Hlines as [|line lines Hline _ IH]; intros inFrontmatter;
    [constructor|].
  rewrite updated_cons. repeat case_match; repeat constructor; try done.
  by apply singleLine_updateLine.
Qed.

End update.

Lemma updated_without_flags lines inFrontmatter :
  updated "" "" "" lines inFrontmatter = lines.
Proof.
  revert inFrontmatter.
  induction lines as [|line lines IH]; intros inFrontmatter; [done|].
  rewrite updated_cons, !IH. unfold updateLine. simpl.
  rewrite !andb_false_r. by repeat case_match.
Qed.

(** X10. [update] with no new title, content and tags writes the file
    back byte for byte. *)
Theorem update_without_flags (text : string) : updateText "" "" "" text = text.
Proof.
  unfold updateText. fold (updated "" "" "" (SplitLines text) false).
  by rewrite updated_without_flags, Join_SplitLines.
Qed.

(** X11. [update] is idempotent on the text of the file when the new
    title, tags and content are single lines: running the same update on
    its own output changes nothing. *)
Theorem update_idempotent (title content tags text : string) :
  singleLine title → singleLine tags → singleLine content →
  updateText title content tags (updateText title content tags text)
  = updateText title content tags text.
Proof.
  intros Htitle Htags Hcontent. unfold updateText.
  fold (updated title content tags (SplitLines text) false).
  rewrite SplitLines_Join.
  - fold (updated title content tags
            (updated title content tags (SplitLines text) false) false).
    by rewrite updated_idemp.
  - destruct (SplitLines text) as [|line lines] eqn:Htext.
    + by apply SplitLines_nonempty in Htext.
    + apply updated_nonempty.
  - apply singleLine_updated; [done..|]. apply singleLine_SplitLines.
Qed.

Lemma update_idempotent_witness :
  let text := createText "Old" "2024-01-01" "a" "body" in
  updateText "New" "text" "b,c" (updateText "New" "text" "b,c" text)
  = updateText "New" "text" "b,c" text.
Proof.
  apply (update_idempotent "New" "text" "b,c"
           (createText "Old" "2024-01-01" "a" "body"));
    reflexivity.
Defined.

(** X12. [update] with new content on a file that [create] wrote keeps
    the two delimiters and the date, replaces the title and the tags that
    are given, and puts the new content right after the closing delimiter:
    the old content is gone, and so is the empty line that [create] wrote
    in front of it. *)
Theorem update_of_created
    (title date tags text title' content' tags' : string) :
  singleLine title → singleLine date → singleLine tags →
  content' ≠ "" →
  updateText title' content' tags' (createText title date tags text)
  = strings.Join
      ["---";
       "title: " +:+ (if bool_decide (title' = "") then title else title');
       "date: " +:+ date;
       "tags: [" +:+ (if bool_decide (tags' = "") then tags else tags')
         +:+ "]";
       "---";
       content'] newline.
Proof.
  intros Htitle Hdate Htags Hcontent. unfold updateText.
  fold (updated title' content' tags'
          (SplitLines (createText title date tags text)) false).
  rewrite SplitLines_createText by done. f_equal. simpl.
  rewrite !updated_cons.
  change (isDelimiter "---") with true.
  change (isDelimiter ("title: " +:+ title)) with false.
  change (isDelimiter ("date: " +:+ date)) with false.
  change (isDelimiter ("tags: [" +:+ tags +:+ "]")) with false.
  change (isDelimiter "") with false. simpl.
  rewrite (bool_decide_eq_false_2 (content' = "")) by done. simpl.
  unfold updateLine.
  change (strings.HasPrefix ("title: " +:+ title) "title:") with true.
  change (strings.HasPrefix ("title: " +:+ title) "tags:") with false.
  change (strings.HasPrefix ("date: " +:+ date) "title:") with false.
  change (strings.HasPrefix ("date: " +:+ date) "tags:") with false.
  change (strings.HasPrefix ("tags: [" +:+ tags +:+ "]") "title:") with false.
  change (strings.HasPrefix ("tags: [" +:+ tags +:+ "]") "tags:") with true.
  simpl. by destruct (bool_decide (title' = "")), (bool_decide (tags' = "")).
Qed.

Lemma update_of_created_witness :
  updateText "" "new body" "x,y"
    (createText "Hello World" "2024-01-01" "intro, test" "# Hi")
  = strings.Join
      ["---"; "title: Hello World"; "date: 2024-01-01"; "tags: [x,y]";
       "---"; "new body"] newline.
Proof.
  apply (update_of_created "Hello World" "2024-01-01" "intro, test" "# Hi"
           "" "new body" "x,y");
    first [reflexivity | discriminate].
Defined.

Lemma isDelimiter_first_line text line lines :
  SplitLines text = line :: lines →
  isDelimiter line = strings.HasPrefix text "---".
Proof.
  intros Htext. apply eq_true_iff_eq.
  unfold isDelimiter. rewrite !HasPrefix_spec. split.
  - intros [rest ->]. rewrite <- (Join_SplitLines text), Htext.
    destruct lines as [|line' lines].
    + by exists rest.
    + rewrite Join_cons by done. exists (rest +:+ newline +:+
        strings.Join (line' :: lines) newline).
      by rewrite app_assoc_str.
  - intros [rest ->]. simpl in Htext.
    change ("" +:+ rest) with rest in Htext.
    destruct (SplitLines rest) as [|first others]; simplify_eq/=.
    + by exists "".
    + by exists first.
Qed.

(** X13. [update] with new content on a file that does not begin with a
    delimiter writes the new content and nothing else: the first line is
    outside the metadata block, so the loop stops there, and the metadata
    block of the file, if it has one further down, is lost. *)
Theorem update_without_opening_delimiter (title content tags text : string) :
  strings.HasPrefix text "---" = false →
  content ≠ "" →
  updateText title content tags text = content.
Proof.
  intros Htext Hcontent. unfold updateText.
  fold (updated title content tags (SplitLines text) false).
  destruct (SplitLines text) as [|line lines] eqn:Hlines.
  { by apply SplitLines_nonempty in Hlines. }
  rewrite updated_cons, (isDelimiter_first_line text line lines Hlines), Htext.
  by rewrite (bool_decide_eq_false_2 (content = "")).
Qed.

Lemma update_without_opening_delimiter_witness :
  updateText "T" "new body" ""
    (strings.Join ["# Notes"; "---"; "title: a"; "---"; "old"] newline)
  = "new body".
Proof.
  apply update_without_opening_delimiter; [reflexivity|discriminate].
Defined.

(** ** The [create] command *)



Lemma isUpper_lowerByte c : isUpper (lowerByte c) = false.
Proof. by destruct c as [[] [] [] [] [] [] [] []]. Qed.

Lemma lowerByte_not_space c : c ≠ " "%char → lowerByte c ≠ " "%char.
Proof. by destruct c as [[] [] [] [] [] [] [] []]. Qed.

Lemma lowerByte_idemp c : lowerByte (lowerByte c) = lowerByte c.
Proof. by destruct c as [[] [] [] [] [] [] [] []]. Qed.

Lemma isASCII_lowerByte c :
  (nat_of_ascii (lowerByte c) <? 128)%nat = (nat_of_ascii c <? 128)%nat.
Proof. by destruct c as [[] [] [] [] [] [] [] []]. Qed.

Lemma app_byte c s : String c "" +:+ s = String c s.
Proof. reflexivity. Qed.

Lemma isASCII_ReplaceAllByte s :
  isASCII (ReplaceAllByte s " " "-") = isASCII s.
Proof.
  induction s as [|c s IH]; [done|]. simpl.
  destruct (Ascii.eqb c " ") eqn:Hc.
  - apply Ascii.eqb_eq in Hc as ->. rewrite app_byte. simpl. by rewrite IH.
  - simpl. by rewrite IH.
Qed.

Lemma isASCII_lowerBytes s : isASCII (lowerBytes s) = isASCII s.
Proof.
  induction s as [|c s IH]; [done|]. simpl.
  by rewrite IH, isASCII_lowerByte.
Qed.

(** The slug of a title of ASCII, byte by byte. *)
Lemma createSlug_ASCII lowerUnicode title :
  isASCII title = true →
  createSlug lowerUnicode title = lowerBytes (ReplaceAllByte title " " "-").
Proof.
  intros Htitle. unfold createSlug, ToLower.
  by rewrite isASCII_ReplaceAllByte, Htitle.
Qed.

Lemma slug_bytes s :
  Forall (λ c, c ≠ " "%char ∧ isUpper c = false)
    (String.list_ascii_of_string (lowerBytes (ReplaceAllByte s " " "-")))
  ∧ String.length (lowerBytes (ReplaceAllByte s " " "-")) = String.length s.
Proof.
  induction s as [|c s [IHbytes IHlen]]; [by split; [constructor|]|].
  simpl. destruct (Ascii.eqb c " ") eqn:Hc.
  - rewrite app_byte. simpl. split; [|by rewrite IHlen].
    constructor; [|done]. by split.
  - simpl. split; [|by rewrite IHlen]. constructor; [|done].
    apply Ascii.eqb_neq in Hc.
    split; [by apply lowerByte_not_space|apply isUpper_lowerByte].
Qed.

Lemma slug_bytes_fixed s :
  Forall (λ c, c ≠ " "%char ∧ isUpper c = false)
    (String.list_ascii_of_string s) →
  lowerBytes (ReplaceAllByte s " " "-") = s.
Proof.
  induction s as [|c s IH]; [done|]. simpl.
  intros [[Hspace Hupper] Hs]%Forall_cons.
  apply Ascii.eqb_neq in Hspace. rewrite Hspace. simpl.
  rewrite IH by done. unfold lowerByte. by rewrite Hupper.
Qed.

(** X15. For a title of ASCII the slug that [create] names the file by
    has as many bytes as the title, no space and no upper-case letter in
    it, and is its own slug: creating a post under the slug of another
    writes over the file of that other. *)
Theorem createSlug_shape (lowerUnicode : string → string) (title : string) :
  isASCII title = true →
  let slug := createSlug lowerUnicode title in
  String.length slug = String.length title
  ∧ Forall (λ c, c ≠ " "%char ∧ isUpper c = false)
      (String.list_ascii_of_string slug)
  ∧ createSlug lowerUnicode slug = slug
  ∧ (createPost lowerUnicode "" slug "" "" "").1
    = (createPost lowerUnicode "" title "" "" "").1.
Proof.
  intros Htitle. simpl.
  assert (createSlug lowerUnicode (createSlug lowerUnicode title)
          = createSlug lowerUnicode title) as Hidemp.
  { rewrite (createSlug_ASCII _ title Htitle).
    rewrite createSlug_ASCII
      by by rewrite isASCII_lowerBytes, isASCII_ReplaceAllByte.
    apply slug_bytes_fixed, slug_bytes. }
  split_and!; [..|done|].
  - rewrite createSlug_ASCII by done. apply slug_bytes.
  - rewrite createSlug_ASCII by done. apply slug_bytes.
  - unfold createPost. simpl. by rewrite Hidemp.
Qed.

Lemma createSlug_shape_witness :
  createSlug (λ s, s) "Hello World" = "hello-world"
  ∧ createSlug (λ s, s) (createSlug (λ s, s) "Hello World")
    = createSlug (λ s, s) "Hello World".
Proof.
  destruct (createSlug_shape (λ s, s) "Hello World") as (_ & _ & H & _);
    [reflexivity|].
  split; [reflexivity|exact H].
Defined.

(** ** The dispatch handler *)

Lemma SplitByte_nonempty s sep : SplitByte s sep ≠ [].
Proof.
  destruct s as [|c s]; [done|]. simpl.
  destruct (Ascii.eqb c sep); [done|]. by destruct (SplitByte s sep).
Qed.

Lemma SplitByte_without s sep :
  Dispatch.without sep s → SplitByte s sep = [s].
Proof.
  unfold Dispatch.without. induction s as [|c s IH]; [done|]. simpl.
  intros [Hc Hs]%not_elem_of_cons.
  destruct (Ascii.eqb c sep) eqn:Heq.
  - by apply Ascii.eqb_eq in Heq.
  - by rewrite IH.
Qed.

Lemma SplitByte_app s sep rest :
  Dispatch.without sep s →
  SplitByte (s +:+ String sep rest) sep = s :: SplitByte rest sep.
Proof.
  unfold Dispatch.without. induction s as [|c s IH].
  - intros _. change ("" +:+ String sep rest) with (String sep rest).
    simpl. by rewrite Ascii.eqb_refl.
  - intros [Hc Hs]%not_elem_of_cons. rewrite app_cons. simpl.
    destruct (Ascii.eqb c sep) eqn:Heq.
    + by apply Ascii.eqb_eq in Heq.
    + by rewrite IH.
Qed.

Module DispatchFacts.
Import Dispatch.

Lemma handler_accepted S r data :
  accepted S r data →
  dispatchWorkflowHandler S r
  = match SplitByte (os_Getenv S "GITHUB_REPOSITORY") "/" !! 0,
          SplitByte (os_Getenv S "GITHUB_REPOSITORY") "/" !! 1 with
    | Some owner, Some repoName =>
        match json_Marshal S (clientPayload data) with
        | Fail _ => httpError "Error marshalling client payload" 500 None
        | Ok payloadBytes =>
            let githubAPIURL :=
              "https://api.github.com/repos/" +:+ owner +:+ "/" +:+ repoName
                +:+ "/dispatches" in
            match http_NewRequest S githubAPIURL payloadBytes with
            | Some _ =>
                httpError "Error creating GitHub API request" 500 None
            | None =>
                let req :=
                  mkGitHubRequest githubAPIURL
                    [("Accept", "application/vnd.github.v3+json");
                     ("Authorization",
                      "Bearer " +:+ os_Getenv S "GITHUB_TOKEN");
                     ("Content-Type", "application/json")]
                    payloadBytes in
                match client_Do S req with
                | Fail _ =>
                    httpError "Error sending request to GitHub API" 500
                              (Some req)
                | Ok (status, respBody) =>
                    if negb (status =? 204)%nat then
                      httpError ("Failed to dispatch workflow: " +:+ respBody)
                                500 (Some req)
                    else Responded 200 "Workflow triggered successfully!"
                                   (Some req)
                end
            end
        end
    | _, _ => Panicked
    end.
Proof.
  intros (Hmethod & (text & Hbody & Hjson) & Hsecret & Hdata & Htoken & Hrepo).
  unfold dispatchWorkflowHandler.
  rewrite Hmethod, Hbody, Hjson, Hdata. simpl.
  rewrite (bool_decide_eq_false_2 (os_Getenv S "GH_HOST_SECRET" = "")) by done.
  rewrite (bool_decide_eq_true_2
             (os_Getenv S "GH_HOST_SECRET" = os_Getenv S "GH_HOST_SECRET"))
    by done.
  simpl.
  rewrite (bool_decide_eq_false_2 (os_Getenv S "GITHUB_TOKEN" = "")) by done.
  by rewrite (bool_decide_eq_false_2 (os_Getenv S "GITHUB_REPOSITORY" = ""))
    by done.
Qed.

(** X16. The handler sends a request to GitHub only for a POST whose body
    decodes to an object that carries the configured, non-empty secret,
    with the token and the repository configured as well; the request then
    carries the token as a bearer token and, as its payload, the encoding
    of the title, content, tags, slug and secret of the object. It answers
    200 only after GitHub answered that request with 204. *)
Theorem handler_sends_when_accepted S r status body sent :
  dispatchWorkflowHandler S r = Responded status body sent →
  status = 200 ∨ is_Some sent →
  ∃ data req,
    accepted S r data
    ∧ sent = Some req
    ∧ ("Authorization", "Bearer " +:+ os_Getenv S "GITHUB_TOKEN")
        ∈ Header req
    ∧ json_Marshal S (clientPayload data) = Ok (Payload req)
    ∧ (status = 200 → ∃ respBody, client_Do S req = Ok (204, respBody)).
Proof.
  unfold dispatchWorkflowHandler, httpError.
  destruct (bool_decide (Method r = "POST")) eqn:Hmethod; simpl;
    [|by intros [= <- <- <-] [|[]]].
  apply bool_decide_eq_true in Hmethod.
  destruct (Body r) as [text|] eqn:Hbody; [|by intros [= <- <- <-] [|[]]].
  destruct (json_Unmarshal S text) as [data|] eqn:Hjson;
    [|by intros [= <- <- <-] [|[]]].
  destruct (bool_decide (os_Getenv S "GH_HOST_SECRET" = "")) eqn:Hsecret;
    [by intros [= <- <- <-] [|[]]|].
  apply bool_decide_eq_false in Hsecret.
  destruct (bool_decide (Secret data = os_Getenv S "GH_HOST_SECRET"))
    eqn:Hdata; simpl; [|by intros [= <- <- <-] [|[]]].
  apply bool_decide_eq_true in Hdata.
  destruct (bool_decide (os_Getenv S "GITHUB_TOKEN" = "")) eqn:Htoken;
    [by intros [= <- <- <-] [|[]]|].
  apply bool_decide_eq_false in Htoken.
  destruct (bool_decide (os_Getenv S "GITHUB_REPOSITORY" = "")) eqn:Hrepo;
    [by intros [= <- <- <-] [|[]]|].
  apply bool_decide_eq_false in Hrepo.
  assert (accepted S r data) as Haccepted.
  { split_and!; try done. by exists text. }
  destruct (SplitByte _ "/" !! 0) as [owner|]; [|done].
  destruct (SplitByte _ "/" !! 1) as [repoName|]; [|done].
  destruct (json_Marshal S (clientPayload data)) as [payloadBytes|] eqn:Hpay;
    [|by intros [= <- <- <-] [|[]]].
  destruct (http_NewRequest S _ payloadBytes);
    [by intros [= <- <- <-] [|[]]|].
  set (req := mkGitHubRequest _ _ payloadBytes).
  destruct (client_Do S req) as [[code respBody]|] eqn:Hdo.
  - destruct (code =? 204)%nat eqn:Hcode; simpl.
    + apply Nat.eqb_eq in Hcode as ->. intros [= <- <- <-] _.
      exists data, req. split_and!; try done.
      * right. left.
      * intros _. by exists respBody.
    + intros [= <- <- <-] _. exists data, req. split_and!; try done.
      right. left.
  - intros [= <- <- <-] _. exists data, req. split_and!; try done.
    right. left.
Qed.

(** X17. When the repository that is configured has no slash in it, every
    request that the handler accepts makes it panic: it takes the second
    part of the repository name without looking whether there is one. *)
Theorem handler_repository_without_slash S r data :
  accepted S r data →
  without "/" (os_Getenv S "GITHUB_REPOSITORY") →
  dispatchWorkflowHandler S r = Panicked.
Proof.
  intros Haccepted Hrepo. rewrite (handler_accepted S r data Haccepted).
  by rewrite (SplitByte_without _ "/" Hrepo).
Qed.

(** X18. When the repository that is configured is [owner/name], for an
    accepted request whose payload is encoded and for which the request
    is made, the handler sends its request to
    [https://api.github.com/repos/owner/name/dispatches], and it answers
    200 exactly when GitHub answers 204, and 500 otherwise. *)
Theorem handler_dispatch_url S r data owner name payload :
  accepted S r data →
  os_Getenv S "GITHUB_REPOSITORY" = owner +:+ "/" +:+ name →
  without "/" owner → without "/" name →
  json_Marshal S (clientPayload data) = Ok payload →
  http_NewRequest S
    ("https://api.github.com/repos/" +:+ owner +:+ "/" +:+ name
       +:+ "/dispatches") payload
  = None →
  ∃ status body req,
    dispatchWorkflowHandler S r = Responded status body (Some req)
    ∧ URL req
      = "https://api.github.com/repos/" +:+ owner +:+ "/" +:+ name
          +:+ "/dispatches"
    ∧ Payload req = payload
    ∧ (status = 200 ∨ status = 500)
    ∧ (status = 200 ↔ ∃ respBody, client_Do S req = Ok (204, respBody)).
Proof.
  intros Haccepted Hrepo Howner Hname Hpayload Hnew.
  rewrite (handler_accepted S r data Haccepted), Hrepo.
  change (owner +:+ "/" +:+ name) with (owner +:+ String "/" name).
  rewrite (SplitByte_app owner "/" name Howner).
  rewrite (SplitByte_without name "/" Hname). simpl.
  rewrite Hpayload, Hnew.
  set (req := mkGitHubRequest _ _ payload).
  destruct (client_Do S req) as [[code respBody]|] eqn:Hdo.
  - destruct (code =? 204)%nat eqn:Hcode; simpl.
    + apply Nat.eqb_eq in Hcode as ->.
      eexists _, _, req. split_and!; [done|done|done|by left|].
      split; [|done]. intros _. by exists respBody.
    + apply Nat.eqb_neq in Hcode.
      eexists _, _, req. split_and!; [done|done|done|by right|].
      split; [done|]. intros [respBody' Heq]. rewrite Hdo in Heq.
      injection Heq as Heq _. done.
  - eexists _, _, req. split_and!; [done|done|done|by right|].
    split; [done|]. intros [respBody' Heq]. rewrite Hdo in Heq. done.
Qed.

Lemma sample_accepted repo :
  repo ≠ "" →
  accepted (sampleServer repo) (mkRequest "POST" (Ok "s3cret"))
    (mkData "t" "c" "" "s" "create-post.yml" "s3cret").
Proof.
  intros Hrepo. split_and!; try done. by exists "s3cret".
Qed.

Lemma handler_sends_when_accepted_witness :
  ∃ data,
    accepted (sampleServer "owner/name") (mkRequest "POST" (Ok "s3cret")) data
    ∧ json_Marshal (sampleServer "owner/name") (clientPayload data) = Ok "{}".
Proof.
  destruct (handler_sends_when_accepted (sampleServer "owner/name")
              (mkRequest "POST" (Ok "s3cret")) 200
              "Workflow triggered successfully!"
              (Some (mkGitHubRequest
                       "https://api.github.com/repos/owner/name/dispatches"
                       [("Accept", "application/vnd.github.v3+json");
                        ("Authorization", "Bearer token");
                        ("Content-Type", "application/json")] "{}")))
    as (data & req & Haccepted & [= <-] & _ & Hpayload & _).
  - reflexivity.
  - by left.
  - by exists data.
Defined.

Lemma handler_repository_without_slash_witness :
  dispatchWorkflowHandler (sampleServer "name")
    (mkRequest "POST" (Ok "s3cret"))
  = Panicked.
Proof.
  apply (handler_repository_without_slash (sampleServer "name")
           (mkRequest "POST" (Ok "s3cret"))
           (mkData "t" "c" "" "s" "create-post.yml" "s3cret")).
  - by apply sample_accepted.
  - by apply (bool_decide_unpack _).
Defined.

Lemma handler_dispatch_url_witness :
  ∃ status body req,
    dispatchWorkflowHandler (sampleServer "owner/name")
      (mkRequest "POST" (Ok "s3cret"))
    = Responded status body (Some req)
    ∧ URL req = "https://api.github.com/repos/owner/name/dispatches".
Proof.
  destruct (handler_dispatch_url (sampleServer "owner/name")
              (mkRequest "POST" (Ok "s3cret"))
              (mkData "t" "c" "" "s" "create-post.yml" "s3cret")
              "owner" "name" "{}")
    as (status & body & req & Hrun & Hurl & _).
  - by apply sample_accepted.
  - reflexivity.
  - by apply (bool_decide_unpack _).
  - by apply (bool_decide_unpack _).
  - reflexivity.
  - reflexivity.
  - by exists status, body, req.
Defined.

End DispatchFacts.

(** ** More on [update] and on runs that stop early *)

Lemma updated_without_content title tags lines inFrontmatter :
  Forall2
    (λ old new,
       isDelimiter new = isDelimiter old
       ∧ (new = old
          ∨ (strings.HasPrefix old "title:" = true ∧ title ≠ ""
             ∧ new = "title: " +:+ title)
          ∨ (strings.HasPrefix old "tags:" = true ∧ tags ≠ ""
             ∧ new = "tags: [" +:+ tags +:+ "]")))
    lines (updated title "" tags lines inFrontmatter).
Proof.
  revert inFrontmatter.
  induction lines as [|line lines IH]; intros inFrontmatter; [constructor|].
  rewrite updated_cons. simpl.
  destruct (isDelimiter line) eqn:Hline; [constructor; auto|].
  destruct inFrontmatter; [|constructor; auto].
  constructor; [|done].
  split; [by rewrite updateLine_not_delimiter|].
  unfold updateLine.
  destruct (strings.HasPrefix line "title:") eqn:Htitle; simpl.
  - destruct (bool_decide (title = "")) eqn:Ht; simpl.
    + destruct (strings.HasPrefix line "tags:"
                && negb (bool_decide (tags = ""))) eqn:Htags; [|by left].
      apply andb_true_iff in Htags as [Hprefix Htags].
      apply negb_true_iff, bool_decide_eq_false in Htags. auto.
    + apply bool_decide_eq_false in Ht. auto.
  - destruct (strings.HasPrefix line "tags:") eqn:Htags; simpl; [|by left].
    destruct (bool_decide (tags = "")) eqn:Ht; simpl; [by left|].
    apply bool_decide_eq_false in Ht. auto.
Qed.



(** X20. When a selected entry of the content directory cannot be read,
    because the file cannot be opened or its metadata cannot be decoded,
    [main] ends with an error before it writes anything: the output
    location is as it was. *)
Theorem main_unreadable_post W range fs files file e :
  os_MkdirAll W "output" = None →
  os_MkdirAll W "content/posts" = None →
  os_ReadDir W "content/posts" = Ok files →
  file ∈ files → selected file = true →
  readPost W (pathOf "content/posts" (Name file)) (os_Getenv W "BASE_URL")
  = Fail e →
  ∃ e', main W range fs = (fs, Fail e').
Proof.
  intros Hout Hcontent Hdir Hfile Hselected Hread.
  rewrite main_compose, Hout, Hcontent, readPosts_traverse, Hdir. simpl.
  destruct (traverse _ _) as [posts|e'] eqn:Hposts; [|by exists e'].
  apply traverse_Ok in Hposts.
  assert (file ∈ filter (λ file, selected file = true) files) as Hin
    by by apply list_elem_of_filter.
  apply list_elem_of_lookup in Hin as [i Hi].
  destruct (Forall2_lookup_l _ _ _ i file Hposts Hi) as (post & _ & Hpost).
  congruence.
Qed.

Lemma main_unreadable_post_witness :
  ∃ e',
    main (siteWorld [mkDirEntry "lost.md" false] [] (λ _, true))
      map_to_list ∅
    = (∅, Fail e').
Proof.
  apply (main_unreadable_post
           (siteWorld [mkDirEntry "lost.md" false] [] (λ _, true))
           map_to_list ∅ [mkDirEntry "lost.md" false]
           (mkDirEntry "lost.md" false) (errorString "no such file")).
  - reflexivity.
  - reflexivity.
  - reflexivity.
  - left.
  - reflexivity.
  - reflexivity.
Defined.
